(** * ClinicVoice audit service: a shallow embedding of [AuditService]

    The development embeds the static methods of the [AuditService] class
    (audit write path, retention-date computation, policy seeding, expiry
    sweep, trail reader and PII redaction) together with the parts of the
    JavaScript run time they rely on: values and a heap of objects, the
    abstract operations behind [Date.prototype.setDate] and
    [Date.prototype.setFullYear], [JSON.stringify], and
    [String.prototype.replace] with a regular expression.

    Conventions.
    - JavaScript numbers that occur in the service are integral; they are
      modelled by [Z], with [None] standing for [NaN] where a [Date] method
      can produce it.
    - Strings are sequences of one-byte characters ([string]); the service
      and the properties below only use ASCII text.
    - An [async] method is a computation threading the world (heap, storage
      tables, clock, console) in program order; a rejected promise is a
      thrown value. *)

From Stdlib Require Import ZArith String Ascii Lia List DecimalString Sorted Permutation.
From stdpp Require Import base list.
Import ListNotations.

Local Open Scope string_scope.
Local Open Scope list_scope.
Local Open Scope Z_scope.

(** ** Thrown values and the state-and-exception monad *)

(** A thrown value: either an instance of [Error] (with its [name] and
    [message]) or any other value, of which only a description is kept. *)
Inductive Thrown : Type :=
| ErrorObj (name message : string)
| OtherThrown (description : string).

Inductive Result (A : Type) : Type :=
| Ok (a : A)
| Throw (e : Thrown).
Arguments Ok {A} a.
Arguments Throw {A} e.

Definition M (S A : Type) : Type := S -> Result A * S.

Definition ret {S A} (a : A) : M S A := fun s => (Ok a, s).

Definition bind {S A B} (c : M S A) (k : A -> M S B) : M S B :=
  fun s =>
    match c s with
    | (Ok a, s') => k a s'
    | (Throw e, s') => (Throw e, s')
    end.

Definition throw {S A} (e : Thrown) : M S A := fun s => (Throw e, s).

(** [try { body } catch (error) { handler }]: effects of [body] that happened
    before the throw stay in the state. *)
Definition try_catch {S A} (body : M S A) (handler : Thrown -> M S A) : M S A :=
  fun s =>
    match body s with
    | (Ok a, s') => (Ok a, s')
    | (Throw e, s') => handler e s'
    end.

Definition gets {S A} (f : S -> A) : M S A := fun s => (Ok (f s), s).
Definition modify {S} (f : S -> S) : M S unit := fun s => (Ok tt, f s).

Definition lift_result {S A} (r : Result A) : M S A := fun s => (r, s).

Declare Scope js_scope.
Delimit Scope js_scope with js.
Notation "x <- c ;; k" := (bind c (fun x => k))
  (at level 100, c at next level, right associativity) : js_scope.
Notation "c ;;; k" := (bind c (fun _ => k))
  (at level 100, right associativity) : js_scope.
Notation "'TRY' b 'CATCH' e '=>' h" := (try_catch b (fun e => h))
  (at level 100, e name, right associativity) : js_scope.

(** [for (const x of xs) body] *)
Fixpoint for_of {S A} (xs : list A) (body : A -> M S unit) : M S unit :=
  match xs with
  | [] => ret tt
  | x :: xs' => bind (body x) (fun _ => for_of xs' body)
  end.

(** ** JavaScript values and the heap *)

Inductive Val : Type :=
| VUndefined
| VNull
| VBool (b : bool)
| VNum (n : Z)
| VBigInt (n : Z)
| VStr (s : string)
| VRef (a : nat).

(** An object is a plain object with its own enumerable properties in
    insertion order, or an array. *)
Inductive Obj : Type :=
| Plain (props : list (string * Val))
| Arr (elems : list Val).

(** The heap: objects by address. *)
Abbreviation Heap := (list Obj).

Definition get_obj (h : Heap) (a : nat) : Obj := default (Plain []) (h !! a).

(** [ToBoolean] *)
Definition truthy (v : Val) : bool :=
  match v with
  | VUndefined | VNull => false
  | VBool b => b
  | VNum n | VBigInt n => negb (n =? 0)%Z
  | VStr s => negb (s =? EmptyString)%string
  | VRef _ => true
  end.

Definition typeof (v : Val) : string :=
  match v with
  | VUndefined => "undefined"
  | VNull => "object"
  | VBool _ => "boolean"
  | VNum _ => "number"
  | VBigInt _ => "bigint"
  | VStr _ => "string"
  | VRef _ => "object"
  end.

Definition string_of_Z (n : Z) : string := NilZero.string_of_int (Z.to_int n).
Definition string_of_nat (n : nat) : string := string_of_Z (Z.of_nat n).

Fixpoint lookup_prop (k : string) (ps : list (string * Val)) : Val :=
  match ps with
  | [] => VUndefined
  | (k', v) :: ps' => if (k' =? k)%string then v else lookup_prop k ps'
  end.

(** Assignment [o[k] = v] on the property list: an existing key keeps its
    position, a new key is added last. *)
Fixpoint assign_prop (k : string) (v : Val) (ps : list (string * Val)) : list (string * Val) :=
  match ps with
  | [] => [(k, v)]
  | (k', v') :: ps' =>
      if (k' =? k)%string then (k', v) :: ps' else (k', v') :: assign_prop k v ps'
  end.

Fixpoint index_props (i : nat) (vs : list Val) : list (string * Val) :=
  match vs with
  | [] => []
  | v :: vs' => (string_of_nat i, v) :: index_props (S i) vs'
  end.

(** The own enumerable properties copied by the spread [{ ...o }]. *)
Definition own_props (o : Obj) : list (string * Val) :=
  match o with
  | Plain ps => ps
  | Arr vs => index_props 0 vs
  end.

Definition alloc (o : Obj) : M Heap nat :=
  fun h => (Ok (List.length h), h ++ [o]).

(** [{ ...data }] *)
Definition spread_copy (data : Val) : M Heap nat :=
  fun h =>
    match data with
    | VRef a => alloc (Plain (own_props (get_obj h a))) h
    | _ => alloc (Plain []) h
    end.

(** [o[k]] for a reference to a plain object (own properties only;
    properties inherited from [Object.prototype] are outside the model). *)
Definition get_prop (a : nat) (k : string) : M Heap Val :=
  gets (fun h => lookup_prop k (own_props (get_obj h a))).

(** [o[k] = v] *)
Definition set_prop (a : nat) (k : string) (v : Val) : M Heap unit :=
  modify (fun h => <[a := Plain (assign_prop k v (own_props (get_obj h a)))]> h).

(** ** Regular expressions and [String.prototype.replace]

    A backtracking matcher in continuation-passing style for the fragment of
    the ECMAScript pattern language that the service uses: literal
    characters, [\d], [.], concatenation, numbered capturing groups and
    greedy or lazy bounded or unbounded repetition. *)

Inductive Regex : Type :=
| RChar (c : ascii)
| RDigit
| RDot
| RSeq (r1 r2 : Regex)
| RGroup (i : nat) (r : Regex)
| RRep (min : nat) (max : option nat) (greedy : bool) (r : Regex).

Definition is_digit (c : ascii) : bool :=
  let n := nat_of_ascii c in (48 <=? n)%nat && (n <=? 57)%nat.

(** [.] matches every character but a line terminator. *)
Definition is_line_terminator (c : ascii) : bool :=
  let n := nat_of_ascii c in (n =? 10)%nat || (n =? 13)%nat.

Definition Captures : Type := list (nat * list ascii).
Definition MatchState : Type := (list ascii * Captures)%type.
Definition Cont : Type := list ascii -> Captures -> option MatchState.

Fixpoint get_cap (i : nat) (caps : Captures) : list ascii :=
  match caps with
  | [] => []
  | (j, s) :: caps' => if (i =? j)%nat then s else get_cap i caps'
  end.

Definition or_else (a b : option MatchState) : option MatchState :=
  match a with
  | Some x => Some x
  | None => b
  end.

Definition max_pred (mx : option nat) : option nat :=
  match mx with
  | Some n => Some (Nat.pred n)
  | None => None
  end.

Definition max_is_zero (mx : option nat) : bool :=
  match mx with
  | Some O => true
  | _ => false
  end.

Definition Matcher : Type := list ascii -> Captures -> Cont -> option MatchState.

(** [RepeatMatcher]: [mn] further iterations of the body [m] are required,
    at most [mx] are allowed; once the required ones are done, an iteration
    that consumes nothing is refused.  A greedy quantifier tries one more
    iteration before the continuation, a lazy one the continuation first.
    Every call uses one unit of [fuel]. *)
Fixpoint rep_match (m : Matcher) (g : bool) (fuel mn : nat) (mx : option nat)
    (s : list ascii) (caps : Captures) (k : Cont) {struct fuel} : option MatchState :=
  match fuel with
  | O => None
  | S fuel' =>
      match mn with
      | S mn' =>
          m s caps (fun s' caps' => rep_match m g fuel' mn' (max_pred mx) s' caps' k)
      | O =>
          if max_is_zero mx then k s caps
          else
            let more :=
              m s caps
                (fun s' caps' =>
                   if (List.length s' <? List.length s)%nat
                   then rep_match m g fuel' O (max_pred mx) s' caps' k
                   else None) in
            if g then or_else more (k s caps) else or_else (k s caps) more
      end
  end.

(** [rmatch r s caps k]: match [r] at the front of [s], then continue with
    [k] on the rest; backtrack into [r] when the continuation fails.  A
    repetition needs at most its required iterations plus one iteration per
    remaining character plus the final call. *)
Fixpoint rmatch (r : Regex) : Matcher :=
  match r with
  | RChar c =>
      fun s caps k =>
        match s with
        | x :: s' => if Ascii.eqb x c then k s' caps else None
        | [] => None
        end
  | RDigit =>
      fun s caps k =>
        match s with
        | x :: s' => if is_digit x then k s' caps else None
        | [] => None
        end
  | RDot =>
      fun s caps k =>
        match s with
        | x :: s' => if is_line_terminator x then None else k s' caps
        | [] => None
        end
  | RSeq r1 r2 =>
      fun s caps k => rmatch r1 s caps (fun s' caps' => rmatch r2 s' caps' k)
  | RGroup i r1 =>
      fun s caps k =>
        rmatch r1 s caps
          (fun s' caps' => k s' ((i, take (List.length s - List.length s') s) :: caps'))
  | RRep mn mx g r1 =>
      fun s caps k => rep_match (rmatch r1) g (S (mn + List.length s)) mn mx s caps k
  end.

(** The result of the first successful match in a string: the text before
    the match, the matched text, the captures and the text after it. *)
Record MatchResult : Type := mkMatch {
  m_before : list ascii;
  m_matched : list ascii;
  m_caps : Captures;
  m_after : list ascii
}.

(** [RegExpBuiltinExec] for a pattern without flags: try every start
    position from the left. *)
Fixpoint regex_exec (r : Regex) (before_rev : list ascii) (s : list ascii) : option MatchResult :=
  match rmatch r s [] (fun rest caps => Some (rest, caps)) with
  | Some (rest, caps) =>
      Some (mkMatch (rev before_rev) (take (List.length s - List.length rest) s) caps rest)
  | None =>
      match s with
      | [] => None
      | c :: s' => regex_exec r (c :: before_rev) s'
      end
  end.

(** [GetSubstitution] for a pattern with [m < 10] groups: [$$], [$&] and
    [$1] .. [$9]; any other [$] is literal. *)
Fixpoint GetSubstitution (matched : list ascii) (caps : Captures) (m : nat)
    (template : list ascii) : list ascii :=
  match template with
  | [] => []
  | c :: rest =>
      if Ascii.eqb c "$" then
        match rest with
        | [] => [c]
        | d :: rest' =>
            if Ascii.eqb d "$" then c :: GetSubstitution matched caps m rest'
            else if Ascii.eqb d "&" then matched ++ GetSubstitution matched caps m rest'
            else
              let n := (nat_of_ascii d - 48)%nat in
              if is_digit d && (1 <=? n)%nat && (n <=? m)%nat
              then get_cap n caps ++ GetSubstitution matched caps m rest'
              else c :: d :: GetSubstitution matched caps m rest'
        end
      else c :: GetSubstitution matched caps m rest
  end.

Fixpoint group_count (r : Regex) : nat :=
  match r with
  | RChar _ | RDigit | RDot => 0
  | RSeq r1 r2 => group_count r1 + group_count r2
  | RGroup _ r1 => S (group_count r1)
  | RRep _ _ _ r1 => group_count r1
  end.

(** [s.replace(r, template)] for a pattern without the global flag: only the
    first match is replaced; without a match the string is returned as is. *)
Definition String_replace (s : string) (r : Regex) (template : string) : string :=
  let cs := list_ascii_of_string s in
  match regex_exec r [] cs with
  | None => s
  | Some m =>
      string_of_list_ascii
        (m_before m
           ++ GetSubstitution (m_matched m) (m_caps m) (group_count r)
                (list_ascii_of_string template)
           ++ m_after m)
  end.

(** The pattern of the phone rule: group 1 is [\+\d{1,3}], group 2 is [\d{3}]
    and group 3 is [\d+]. *)
Definition phone_regex : Regex :=
  RSeq (RGroup 1 (RSeq (RChar "+") (RRep 1 (Some 3%nat) true RDigit)))
    (RSeq (RGroup 2 (RRep 3 (Some 3%nat) true RDigit))
       (RGroup 3 (RRep 1 None true RDigit))).

(** The pattern of the email rule: group 1 is [.], group 2 is the lazy [.*?]
    and group 3 is [@] followed by the greedy [.*]. *)
Definition email_regex : Regex :=
  RSeq (RGroup 1 RDot)
    (RSeq (RGroup 2 (RRep 0 None false RDot))
       (RGroup 3 (RSeq (RChar "@") (RRep 0 None true RDot)))).

(** ** [JSON.stringify] *)

Definition hex_digit (n : nat) : ascii :=
  ascii_of_nat (if (n <? 10)%nat then 48 + n else 87 + n).

Definition dquote : ascii := "034"%char.
Definition backslash : ascii := "092"%char.

(** The escape of one character in [QuoteJSONString]. *)
Definition json_escape (c : ascii) : list ascii :=
  let n := nat_of_ascii c in
  if (n =? 34)%nat then [backslash; dquote]
  else if (n =? 92)%nat then [backslash; backslash]
  else if (n =? 8)%nat then [backslash; "b"%char]
  else if (n =? 9)%nat then [backslash; "t"%char]
  else if (n =? 10)%nat then [backslash; "n"%char]
  else if (n =? 12)%nat then [backslash; "f"%char]
  else if (n =? 13)%nat then [backslash; "r"%char]
  else if (n <? 32)%nat then
    [backslash; "u"%char; "0"%char; "0"%char; hex_digit (n / 16); hex_digit (n mod 16)]
  else [c].

Definition QuoteJSONString (s : string) : string :=
  string_of_list_ascii
    ([dquote] ++ concat (map json_escape (list_ascii_of_string s)) ++ [dquote]).

Fixpoint join_comma (parts : list string) : string :=
  match parts with
  | [] => EmptyString
  | [p] => p
  | p :: rest => (p ++ "," ++ join_comma rest)%string
  end.

Definition circular_error : Thrown :=
  ErrorObj "TypeError" "Converting circular structure to JSON".
Definition bigint_error : Thrown :=
  ErrorObj "TypeError" "Do not know how to serialize a BigInt".
Definition stack_error : Thrown :=
  ErrorObj "RangeError" "Maximum call stack size exceeded".

(** [SerializeJSONProperty] with [SerializeJSONObject] and
    [SerializeJSONArray]: [stack] holds the objects being serialized, a value
    found on it is a cycle.  [None] is the result [undefined].  [fuel] bounds
    the nesting depth. *)
Fixpoint SerializeJSONProperty (fuel : nat) (h : Heap) (stack : list nat) (v : Val)
    {struct fuel} : Result (option string) :=
  match v with
  | VUndefined => Ok None
  | VNull => Ok (Some "null")
  | VBool b => Ok (Some (if b then "true" else "false"))
  | VNum n => Ok (Some (string_of_Z n))
  | VBigInt _ => Throw bigint_error
  | VStr s => Ok (Some (QuoteJSONString s))
  | VRef a =>
      if existsb (Nat.eqb a) stack then Throw circular_error
      else
        match fuel with
        | O => Throw stack_error
        | S fuel' =>
            match get_obj h a with
            | Plain props =>
                let members :=
                  (fix members (ps : list (string * Val)) : Result (list string) :=
                     match ps with
                     | [] => Ok []
                     | (k, x) :: ps' =>
                         match SerializeJSONProperty fuel' h (a :: stack) x with
                         | Throw e => Throw e
                         | Ok None => members ps'
                         | Ok (Some str) =>
                             match members ps' with
                             | Throw e => Throw e
                             | Ok l => Ok ((QuoteJSONString k ++ ":" ++ str)%string :: l)
                             end
                         end
                     end) props in
                match members with
                | Throw e => Throw e
                | Ok l => Ok (Some ("{" ++ join_comma l ++ "}")%string)
                end
            | Arr elems =>
                let items :=
                  (fix items (xs : list Val) : Result (list string) :=
                     match xs with
                     | [] => Ok []
                     | x :: xs' =>
                         match SerializeJSONProperty fuel' h (a :: stack) x with
                         | Throw e => Throw e
                         | Ok o =>
                             match items xs' with
                             | Throw e => Throw e
                             | Ok l => Ok (default "null" o :: l)
                             end
                         end
                     end) elems in
                match items with
                | Throw e => Throw e
                | Ok l => Ok (Some ("[" ++ join_comma l ++ "]")%string)
                end
            end
        end
  end.

(** [JSON.stringify(value)]: the nesting depth of a value without cycles is
    at most the number of objects on the heap. *)
Definition JSON_stringify (h : Heap) (v : Val) : Result (option string) :=
  SerializeJSONProperty (S (List.length h)) h [] v.

(** [String.prototype.toUpperCase] on ASCII text. *)
Definition upper_char (c : ascii) : ascii :=
  let n := nat_of_ascii c in
  if (97 <=? n)%nat && (n <=? 122)%nat then ascii_of_nat (n - 32) else c.

Fixpoint toUpperCase (s : string) : string :=
  match s with
  | EmptyString => EmptyString
  | String c s' => String (upper_char c) (toUpperCase s')
  end.

(** ** Time values and the [Date] methods used by the service

    The abstract operations of the ECMAScript specification on time values
    (milliseconds since the epoch).  The local time zone adjustment of the
    host is a function [tza]: [tza t true] is the offset in force at the UTC
    time [t], [tza t false] the offset that applies to the local time [t]
    (it changes with daylight saving). *)

Definition msPerDay : Z := 86400000.

Definition Day (t : Z) : Z := t / msPerDay.
Definition TimeWithinDay (t : Z) : Z := t mod msPerDay.

Definition DaysInYear (y : Z) : Z :=
  if negb (y mod 4 =? 0) then 365
  else if negb (y mod 100 =? 0) then 366
  else if negb (y mod 400 =? 0) then 365
  else 366.

Definition DayFromYear (y : Z) : Z :=
  365 * (y - 1970) + (y - 1969) / 4 - (y - 1901) / 100 + (y - 1601) / 400.

(** The largest year [y] with [DayFromYear y <= d], computed from an
    estimate that is off by at most one. *)
Definition YearFromDay (d : Z) : Z :=
  let y := 1970 + (400 * d) / 146097 in
  if d <? DayFromYear y then y - 1
  else if DayFromYear (y + 1) <=? d then y + 1
  else y.

Definition YearFromTime (t : Z) : Z := YearFromDay (Day t).

Definition InLeapYear (t : Z) : Z :=
  if DaysInYear (YearFromTime t) =? 365 then 0 else 1.

Definition DayWithinYear (t : Z) : Z := Day t - DayFromYear (YearFromTime t).

(** Number of days of the year before month [m] (0 is January), [leap]
    being 1 in a leap year and 0 otherwise. *)
Definition monthStart (m leap : Z) : Z :=
  if m =? 0 then 0
  else if m =? 1 then 31
  else if m =? 2 then 59 + leap
  else if m =? 3 then 90 + leap
  else if m =? 4 then 120 + leap
  else if m =? 5 then 151 + leap
  else if m =? 6 then 181 + leap
  else if m =? 7 then 212 + leap
  else if m =? 8 then 243 + leap
  else if m =? 9 then 273 + leap
  else if m =? 10 then 304 + leap
  else 334 + leap.

Definition MonthFromTime (t : Z) : Z :=
  let d := DayWithinYear t in
  let leap := InLeapYear t in
  if d <? 31 then 0
  else if d <? 59 + leap then 1
  else if d <? 90 + leap then 2
  else if d <? 120 + leap then 3
  else if d <? 151 + leap then 4
  else if d <? 181 + leap then 5
  else if d <? 212 + leap then 6
  else if d <? 243 + leap then 7
  else if d <? 273 + leap then 8
  else if d <? 304 + leap then 9
  else if d <? 334 + leap then 10
  else 11.

Definition DateFromTime (t : Z) : Z :=
  DayWithinYear t - monthStart (MonthFromTime t) (InLeapYear t) + 1.

(** [MakeDay(year, month, date)]: the day number of the first day of the
    month, shifted by [date - 1]. *)
Definition MakeDay (year month date : Z) : Z :=
  let ym := year + month / 12 in
  let mn := month mod 12 in
  let leap := if DaysInYear ym =? 365 then 0 else 1 in
  DayFromYear ym + monthStart mn leap + date - 1.

Definition MakeDate (day time : Z) : Z := day * msPerDay + time.

(** A [Date] object holds a time value or [NaN] (an invalid date). *)
Inductive JSDate : Type :=
| DateValue (t : Z)
| InvalidDate.

Definition maxTime : Z := 8640000000000000.

Definition TimeClip (t : Z) : JSDate :=
  if Z.abs t <=? maxTime then DateValue t else InvalidDate.

Section LocalTime.
Variable tza : Z -> bool -> Z.

(** [LocalTime(t) = t + LocalTZA(t, true)] *)
Definition LocalTime (t : Z) : Z := t + tza t true.

(** [UTC(t) = t - LocalTZA(t, false)] *)
Definition UTC (t : Z) : Z := t - tza t false.

(** [d.getDate()]; [None] is [NaN]. *)
Definition Date_getDate (d : JSDate) : option Z :=
  match d with
  | DateValue t => Some (DateFromTime (LocalTime t))
  | InvalidDate => None
  end.

(** [d.getFullYear()] *)
Definition Date_getFullYear (d : JSDate) : option Z :=
  match d with
  | DateValue t => Some (YearFromTime (LocalTime t))
  | InvalidDate => None
  end.

(** [d.setDate(date)], returning the updated date object. *)
Definition Date_setDate (d : JSDate) (date : option Z) : JSDate :=
  match d, date with
  | DateValue t0, Some dt =>
      let t := LocalTime t0 in
      let newDate :=
        MakeDate (MakeDay (YearFromTime t) (MonthFromTime t) dt) (TimeWithinDay t) in
      TimeClip (UTC newDate)
  | _, _ => InvalidDate
  end.

(** [d.setFullYear(year)], returning the updated date object. *)
Definition Date_setFullYear (d : JSDate) (year : option Z) : JSDate :=
  match year with
  | Some y =>
      let t := match d with DateValue t0 => LocalTime t0 | InvalidDate => 0 end in
      let newDate :=
        MakeDate (MakeDay y (MonthFromTime t) (DateFromTime t)) (TimeWithinDay t) in
      TimeClip (UTC newDate)
  | None => InvalidDate
  end.
End LocalTime.

(** A host whose local time is UTC. *)
Definition utc_zone : Z -> bool -> Z := fun _ _ => 0.

(** A host on United Kingdom time in 2024: one hour ahead of UTC from
    31 March 01:00 UTC to 27 October 01:00 UTC.  A local time that is skipped
    or repeated at a transition takes the offset in force before it. *)
Definition london_2024 : Z -> bool -> Z :=
  fun t isUTC =>
    let summer_start := 1711846800000 in
    let summer_end := 1729990800000 in
    if isUTC then
      if (summer_start <=? t) && (t <? summer_end) then 3600000 else 0
    else
      if (summer_start + 3600000 <=? t) && (t <? summer_end + 3600000) then 3600000 else 0.

(** Addition of numbers, [None] being [NaN]. *)
Definition num_add (a b : option Z) : option Z :=
  match a, b with
  | Some x, Some y => Some (x + y)
  | _, _ => None
  end.

(** ** The storage layer

    The service imports [db] (a Drizzle handle) and the tables [auditLogs]
    and [dataRetentionPolicies] of the shared schema; the tables are lists of
    rows, the queries are the operations below.  Every query is one round
    trip to the storage, which may take time and may reject. *)

Module AuditLog.
(** A row of [auditLogs]. *)
Record t : Type := mk {
  id : Z;
  userId : string;
  clinicId : option string;
  action : string;
  entityType : string;
  entityId : option string;
  details : option string;
  ipAddress : option string;
  userAgent : option string;
  successful : bool;
  errorMessage : option string;
  timestamp : Z;
  retentionDate : option Z
}.
End AuditLog.

Module InsertAuditLog.
(** The values of an insert into [auditLogs] ([InsertAuditLog]). *)
Record t : Type := mk {
  userId : string;
  clinicId : option string;
  action : string;
  entityType : string;
  entityId : option string;
  details : option string;
  ipAddress : option string;
  userAgent : option string;
  successful : bool;
  errorMessage : option string;
  retentionDate : option JSDate
}.
End InsertAuditLog.

Module Policy.
(** A row of [dataRetentionPolicies]. *)
Record t : Type := mk {
  id : Z;
  dataType : string;
  retentionPeriodDays : Z;
  description : string;
  legalBasis : string;
  isActive : bool
}.
End Policy.

Module InsertPolicy.
Record t : Type := mk {
  dataType : string;
  retentionPeriodDays : Z;
  description : string;
  legalBasis : string
}.
End InsertPolicy.

(** What the environment does at one storage round trip: the time it takes
    (in milliseconds) and whether the query is rejected. *)
Record Outcome : Type := mkOutcome {
  latency : N;
  failure : option Thrown
}.

Record World : Type := mkWorld {
  heap : Heap;
  auditLogs : list AuditLog.t;
  dataRetentionPolicies : list Policy.t;
  nextId : Z;
  clock : Z;
  LocalTZA : Z -> bool -> Z;
  script : list Outcome;
  console : list string
}.

Definition with_heap (h : Heap) (w : World) : World :=
  mkWorld h (auditLogs w) (dataRetentionPolicies w) (nextId w) (clock w) (LocalTZA w)
    (script w) (console w).

Definition with_auditLogs (l : list AuditLog.t) (w : World) : World :=
  mkWorld (heap w) l (dataRetentionPolicies w) (nextId w) (clock w) (LocalTZA w)
    (script w) (console w).

Definition with_policies (l : list Policy.t) (w : World) : World :=
  mkWorld (heap w) (auditLogs w) l (nextId w) (clock w) (LocalTZA w) (script w) (console w).

Definition with_nextId (n : Z) (w : World) : World :=
  mkWorld (heap w) (auditLogs w) (dataRetentionPolicies w) n (clock w) (LocalTZA w)
    (script w) (console w).

Definition with_console (c : list string) (w : World) : World :=
  mkWorld (heap w) (auditLogs w) (dataRetentionPolicies w) (nextId w) (clock w) (LocalTZA w)
    (script w) c.

Definition after_round_trip (o : Outcome) (rest : list Outcome) (w : World) : World :=
  mkWorld (heap w) (auditLogs w) (dataRetentionPolicies w) (nextId w)
    (clock w + Z.of_N (latency o)) (LocalTZA w) rest (console w).

(** Modelled from the spec: the storage handle [db] is not part of the
    sources; a query is a storage round trip that suspends the caller and
    either completes or fails ("storage unavailable").  The next [Outcome] of
    the script decides; an empty script means an immediate success. *)
Definition storage_call : M World unit :=
  fun w =>
    match script w with
    | [] => (Ok tt, w)
    | o :: rest =>
        match failure o with
        | Some e => (Throw e, after_round_trip o rest w)
        | None => (Ok tt, after_round_trip o rest w)
        end
    end.

(** Lifting of a heap computation to the world. *)
Definition lift_heap {A} (c : M Heap A) : M World A :=
  fun w => let '(r, h) := c (heap w) in (r, with_heap h w).

(** [new Date()] *)
Definition new_Date : M World JSDate := gets (fun w => DateValue (clock w)).

Definition console_error (label : string) : M World unit :=
  modify (fun w => with_console (console w ++ [label]) w).

Definition console_log (line : string) : M World unit :=
  modify (fun w => with_console (console w ++ [line]) w).

(** Modelled from the spec: [db.select().from(dataRetentionPolicies).where(c)];
    the rows come back in table order. *)
Definition db_select_policies (where_ : Policy.t -> bool) : M World (list Policy.t) :=
  (storage_call ;;;
   gets (fun w => List.filter where_ (dataRetentionPolicies w)))%js.

(** Modelled from the spec: [db.insert(dataRetentionPolicies).values(v)]; the
    schema is not part of the sources, the row gets a fresh id and the
    active flag, which the seeding routine does not pass, is set. *)
Definition db_insert_policies (v : InsertPolicy.t) : M World unit :=
  (storage_call ;;;
   modify (fun w =>
     with_nextId (nextId w + 1)
       (with_policies
          (dataRetentionPolicies w ++
             [Policy.mk (nextId w) (InsertPolicy.dataType v)
                (InsertPolicy.retentionPeriodDays v) (InsertPolicy.description v)
                (InsertPolicy.legalBasis v) true]) w)))%js.

Definition invalid_time_error : Thrown := ErrorObj "RangeError" "Invalid time value".

(** The driver value of a nullable timestamp column: an invalid [Date] has
    no ISO representation. *)
Definition timestamp_to_driver (d : option JSDate) : Result (option Z) :=
  match d with
  | None => Ok None
  | Some (DateValue t) => Ok (Some t)
  | Some InvalidDate => Throw invalid_time_error
  end.

(** Modelled from the spec: [db.insert(auditLogs).values(v)]; the creation
    timestamp is set once, by the storage, when the row is written. *)
Definition db_insert_auditLogs (v : InsertAuditLog.t) : M World unit :=
  (rd <- lift_result (timestamp_to_driver (InsertAuditLog.retentionDate v)) ;;
   storage_call ;;;
   modify (fun w =>
     with_nextId (nextId w + 1)
       (with_auditLogs
          (auditLogs w ++
             [AuditLog.mk (nextId w) (InsertAuditLog.userId v) (InsertAuditLog.clinicId v)
                (InsertAuditLog.action v) (InsertAuditLog.entityType v)
                (InsertAuditLog.entityId v) (InsertAuditLog.details v)
                (InsertAuditLog.ipAddress v) (InsertAuditLog.userAgent v)
                (InsertAuditLog.successful v) (InsertAuditLog.errorMessage v)
                (clock w) rd]) w)))%js.

(** Modelled from the spec: [db.delete(auditLogs).where(c).returning({id})]:
    the matching rows are removed in one statement and their ids returned. *)
Definition db_delete_auditLogs (where_ : AuditLog.t -> bool) : M World (list Z) :=
  (storage_call ;;;
   deleted <- gets (fun w => List.filter where_ (auditLogs w)) ;;
   modify (fun w =>
     with_auditLogs (List.filter (fun r => negb (where_ r)) (auditLogs w)) w) ;;;
   ret (map AuditLog.id deleted))%js.

(** [ORDER BY timestamp] (ascending), as a stable insertion sort. *)
Fixpoint insert_by_timestamp (x : AuditLog.t) (l : list AuditLog.t) : list AuditLog.t :=
  match l with
  | [] => [x]
  | y :: l' =>
      if AuditLog.timestamp x <=? AuditLog.timestamp y then x :: y :: l'
      else y :: insert_by_timestamp x l'
  end.

Fixpoint order_by_timestamp (l : list AuditLog.t) : list AuditLog.t :=
  match l with
  | [] => []
  | x :: l' => insert_by_timestamp x (order_by_timestamp l')
  end.

(** Modelled from the spec:
    [db.select().from(auditLogs).where(c).orderBy(auditLogs.timestamp).limit(n)]. *)
Definition db_select_auditLogs (where_ : AuditLog.t -> bool) (limit : nat)
  : M World (list AuditLog.t) :=
  (storage_call ;;;
   gets (fun w => take limit (order_by_timestamp (List.filter where_ (auditLogs w)))))%js.

(** SQL comparisons on a nullable column: [NULL] matches nothing. *)
Definition sql_eq_string (col : option string) (v : string) : bool :=
  match col with
  | Some s => (s =? v)%string
  | None => false
  end.

Definition sql_lt_time (col : option Z) (v : JSDate) : bool :=
  match col, v with
  | Some t, DateValue now => t <? now
  | _, _ => false
  end.

(** ** The service *)

Module Params.
(** The argument of [logAction]; an absent [details] is [VUndefined]. *)
Record t : Type := mk {
  userId : string;
  clinicId : option string;
  action : string;
  entityType : string;
  entityId : option string;
  details : Val;
  ipAddress : option string;
  userAgent : option string;
  successful : option bool;
  errorMessage : option string
}.
End Params.

(** [v.replace(r, template)]: only a string has the method; on any other
    value of the model the call is a [TypeError]. *)
Definition not_a_function : Thrown :=
  ErrorObj "TypeError" "redacted[field].replace is not a function".

Definition call_replace (v : Val) (r : Regex) (template : string) : Result Val :=
  match v with
  | VStr s => Ok (VStr (String_replace s r template))
  | _ => Throw not_a_function
  end.

(** [error instanceof Error ? error.message : "Unknown error"] *)
Definition error_message (error : Thrown) : string :=
  match error with
  | ErrorObj _ message => message
  | OtherThrown _ => "Unknown error"
  end.

Module AuditService.

(** Calculate when this audit log should be deleted based on data
    retention policies. *)
Definition calculateRetentionDate (entityType : string) : M World (option JSDate) :=
  try_catch
    (rows <- db_select_policies
               (fun p => (Policy.dataType p =? entityType)%string
                         && Bool.eqb (Policy.isActive p) true) ;;
     tza <- gets LocalTZA ;;
     match rows with
     | policy :: _ =>
         retentionDate <- new_Date ;;
         ret (Some (Date_setDate tza retentionDate
                      (num_add (Date_getDate tza retentionDate)
                         (Some (Policy.retentionPeriodDays policy)))))
     | [] =>
         (* Default to 7 years for healthcare data if no specific policy *)
         defaultRetention <- new_Date ;;
         ret (Some (Date_setFullYear tza defaultRetention
                      (num_add (Date_getFullYear tza defaultRetention) (Some 7))))
     end)%js
    (fun error =>
       console_error "Error calculating retention date:" ;;; ret None)%js.

(** Log any action for compliance tracking. *)
Definition logAction (params : Params.t) : M World unit :=
  try_catch
    (retentionDate <- calculateRetentionDate (Params.entityType params) ;;
     details <- (if truthy (Params.details params)
                 then h <- gets heap ;;
                      lift_result (JSON_stringify h (Params.details params))
                 else ret None) ;;
     let auditLog :=
       InsertAuditLog.mk
         (Params.userId params)
         (Params.clinicId params)
         (toUpperCase (Params.action params))
         (Params.entityType params)
         (Params.entityId params)
         details
         (Params.ipAddress params)
         (Params.userAgent params)
         (default true (Params.successful params))
         (Params.errorMessage params)
         retentionDate in
     db_insert_auditLogs auditLog)%js
    (fun error =>
       (* Don't throw - audit logging failure shouldn't break business operations *)
       console_error "Failed to log audit action:").

Definition defaultPolicies : list InsertPolicy.t :=
  [ InsertPolicy.mk "call_logs" 2555 "Patient call recordings and transcripts" "HIPAA";
    InsertPolicy.mk "appointments" 2555 "Appointment booking and scheduling records" "HIPAA";
    InsertPolicy.mk "audit_logs" 2190 "System access and action audit trails" "HIPAA";
    InsertPolicy.mk "user" 1095 "User account and profile information" "GDPR";
    InsertPolicy.mk "consent_records" 2190 "Patient consent and withdrawal records" "GDPR" ].

(** The body of the seeding loop: only insert if doesn't already exist. *)
Definition seed_one (policy : InsertPolicy.t) : M World unit :=
  (existing <- db_select_policies
                 (fun p => (Policy.dataType p =? InsertPolicy.dataType policy)%string) ;;
   if (List.length existing =? 0)%nat
   then db_insert_policies policy
   else ret tt)%js.

(** Initialize default data retention policies. *)
Definition initializeDefaultPolicies : M World unit :=
  try_catch
    (for_of defaultPolicies seed_one)
    (fun error => console_error "Error initializing default retention policies:").

(** Clean up expired audit logs based on retention policies. *)
Definition cleanupExpiredLogs : M World nat :=
  try_catch
    (now <- new_Date ;;
     deletedLogs <- db_delete_auditLogs
                      (fun r => sql_lt_time (AuditLog.retentionDate r) now) ;;
     console_log ("Cleaned up " ++ string_of_nat (List.length deletedLogs)
                    ++ " expired audit logs")%string ;;;
     (* Log the cleanup action itself *)
     detailsObj <- lift_heap
                     (alloc (Plain [("deletedCount",
                                     VNum (Z.of_nat (List.length deletedLogs)))])) ;;
     logAction
       (Params.mk "system" None "CLEANUP_EXPIRED_LOGS" "audit_logs" None
          (VRef detailsObj) None None (Some true) None) ;;;
     ret (List.length deletedLogs))%js
    (fun error =>
       console_error "Error cleaning up expired logs:" ;;;
       logAction
         (Params.mk "system" None "CLEANUP_EXPIRED_LOGS" "audit_logs" None
            VUndefined None None (Some false) (Some (error_message error))) ;;;
       ret O)%js.

(** Get audit trail for a specific entity; [limit] defaults to 100. *)
Definition getAuditTrail (entityType entityId : string) (limit : option nat)
  : M World (list AuditLog.t) :=
  try_catch
    (db_select_auditLogs
       (fun r => (AuditLog.entityType r =? entityType)%string
                 && sql_eq_string (AuditLog.entityId r) entityId)
       (default 100%nat limit))
    (fun error => console_error "Error fetching audit trail:" ;;; ret [])%js.

Definition default_fieldsToRedact : list string := ["phone"; "email"; "name"; "address"].

(** The body of the redaction loop for one field of the copy [redacted]. *)
Definition redact_field (redacted : nat) (field : string) : M Heap unit :=
  (v <- get_prop redacted field ;;
   if truthy v then
     if (field =? "phone")%string then
       (* Keep country code and first 3 digits, redact rest *)
       v' <- lift_result (call_replace v phone_regex "$1$2***") ;;
       set_prop redacted field v'
     else if (field =? "email")%string then
       (* Keep first letter and domain *)
       v' <- lift_result (call_replace v email_regex "$1***$3") ;;
       set_prop redacted field v'
     else
       (* Generic redaction *)
       set_prop redacted field (VStr "***REDACTED***")
   else ret tt)%js.

(** PII redaction for GDPR compliance; an absent [fieldsToRedact] is the
    default list. *)
Definition redactPII (data : Val) (fieldsToRedact : option (list string)) : M Heap Val :=
  if negb (truthy data) || negb (typeof data =? "object")%string then ret data
  else
    (redacted <- spread_copy data ;;
     for_of (default default_fieldsToRedact fieldsToRedact) (redact_field redacted) ;;;
     ret (VRef redacted))%js.

End AuditService.

(** ** Vocabulary of the statements *)

Import AuditService.

Definition failed_label : string := "Failed to log audit action:".

Definition logged_row (params : Params.t) (details : option string) (rd : option Z)
    (id ts : Z) : AuditLog.t :=
  AuditLog.mk id (Params.userId params) (Params.clinicId params)
    (toUpperCase (Params.action params)) (Params.entityType params)
    (Params.entityId params) details (Params.ipAddress params) (Params.userAgent params)
    (default true (Params.successful params)) (Params.errorMessage params) ts rd.

Definition same_tables (w w' : World) : Prop :=
  heap w' = heap w /\ auditLogs w' = auditLogs w
  /\ dataRetentionPolicies w' = dataRetentionPolicies w /\ nextId w' = nextId w
  /\ LocalTZA w' = LocalTZA w.

Definition t2024 : Z := 1704067200000.

Definition storage_down : Outcome :=
  mkOutcome 5 (Some (ErrorObj "Error" "connection refused")).

Definition storage_ok : Outcome := mkOutcome 5 None.

Definition empty_world : World := mkWorld [] [] [] 1 t2024 utc_zone [] [].

Definition cyclic_heap : Heap := [Plain [("self", VRef 0)]].

Definition booking_params (details : Val) : Params.t :=
  Params.mk "user-1" (Some "clinic-1") "create_appointment" "appointments" (Some "A1")
    details None None None None.

Definition seeded_world : World :=
  mkWorld [] []
    [Policy.mk 1 "appointments" 2555 "Appointment booking and scheduling records" "HIPAA" true]
    2 t2024 utc_zone [] [].

Definition active_policy_for (entityType : string) (p : Policy.t) : bool :=
  (Policy.dataType p =? entityType)%string && Bool.eqb (Policy.isActive p) true.

(** The expiry is the UTC time of the local time that lies [days] calendar
    days after the local time of [T], at the same time of day. *)
Definition calendar_days_later (tza : Z -> bool -> Z) (T days : Z) (expiry : JSDate) : Prop :=
  exists l,
    Day l = Day (LocalTime tza T) + days
    /\ TimeWithinDay l = TimeWithinDay (LocalTime tza T)
    /\ expiry = TimeClip (UTC tza l).

Definition expired (now : Z) (r : AuditLog.t) : bool :=
  match AuditLog.retentionDate r with
  | Some d => d <? now
  | None => false
  end.

Definition deletedCount_json (n : nat) : string :=
  ("{" ++ QuoteJSONString "deletedCount" ++ ":" ++ string_of_nat n ++ "}")%string.

(** The audit row that the sweep writes about itself. *)
Definition cleanup_row (ok : bool) (details errorMessage : option string)
    (rd : option Z) (id ts : Z) : AuditLog.t :=
  AuditLog.mk id "system" None "CLEANUP_EXPIRED_LOGS" "audit_logs" None details None None
    ok errorMessage ts rd.

Definition example_row (id : Z) (rd : option Z) : AuditLog.t :=
  AuditLog.mk id "user-1" None "LOGIN" "user" (Some "U1") None None None true None
    (t2024 - 10 * msPerDay) rd.

(** The example of the specification: expiries one day ago, one day ahead and
    absent. *)
Definition sweep_world : World :=
  mkWorld []
    [example_row 1 (Some (t2024 - msPerDay)); example_row 2 (Some (t2024 + msPerDay));
     example_row 3 None]
    [] 4 t2024 utc_zone [] [].

Definition swept_count (w : World) : nat :=
  List.length (List.filter (expired (clock w)) (auditLogs w)).

(** The world in which the sweep calls [logAction]: after the delete, the
    console line and the allocation of the details object, or after the
    console line of the handler when the delete was rejected. *)
Definition self_log_world (w : World) : World :=
  match storage_call w with
  | (Ok _, w1) =>
      let deleted :=
        List.filter (fun r => sql_lt_time (AuditLog.retentionDate r) (DateValue (clock w)))
          (auditLogs w1) in
      with_heap
        (heap w1 ++ [Plain [("deletedCount", VNum (Z.of_nat (List.length deleted)))]])
        (with_console
           (console w1 ++ [("Cleaned up " ++ string_of_nat (List.length deleted)
                              ++ " expired audit logs")%string])
           (with_auditLogs
              (List.filter
                 (fun r => negb (sql_lt_time (AuditLog.retentionDate r) (DateValue (clock w))))
                 (auditLogs w1)) w1))
  | (Throw _, w1) =>
      with_console (console w1 ++ ["Error cleaning up expired logs:"]) w1
  end.

(** The descriptor that the sweep passes to [logAction]. *)
Definition self_log_params (w : World) : Params.t :=
  match storage_call w with
  | (Ok _, w1) =>
      Params.mk "system" None "CLEANUP_EXPIRED_LOGS" "audit_logs" None
        (VRef (List.length (heap w1))) None None (Some true) None
  | (Throw e, _) =>
      Params.mk "system" None "CLEANUP_EXPIRED_LOGS" "audit_logs" None
        VUndefined None None (Some false) (Some (error_message e))
  end.

(** The write of [logAction] goes through: the resolved retention date can be
    stored and the storage accepts the insert. *)
Definition write_accepted (entityType : string) (w : World) : Prop :=
  fst (calculateRetentionDate entityType w) <> Ok (Some InvalidDate)
  /\ fst (storage_call (snd (calculateRetentionDate entityType w))) = Ok tt.

Definition trail_match (entityType entityId : string) (r : AuditLog.t) : bool :=
  (AuditLog.entityType r =? entityType)%string
  && sql_eq_string (AuditLog.entityId r) entityId.

Definition by_timestamp (a b : AuditLog.t) : Prop :=
  AuditLog.timestamp a <= AuditLog.timestamp b.

Definition rows_of (c : string) (l : list Policy.t) : nat :=
  List.length (List.filter (fun p => (Policy.dataType p =? c)%string) l).

Definition seeded_by (l : list InsertPolicy.t) (c : string) : bool :=
  existsb (fun v => (InsertPolicy.dataType v =? c)%string) l.

Definition seeded (c : string) : bool := seeded_by AuditService.defaultPolicies c.

(** No storage round trip of the script is rejected. *)
Definition available (w : World) : Prop :=
  Forall (fun o => failure o = None) (script w).

Definition policy_row (id : Z) (v : InsertPolicy.t) : Policy.t :=
  Policy.mk id (InsertPolicy.dataType v) (InsertPolicy.retentionPeriodDays v)
    (InsertPolicy.description v) (InsertPolicy.legalBasis v) true.

(** The relation between the policy table before and after seeding: per
    category, the number of rows is unchanged, or goes from 0 to 1 for a
    category of the seeded list. *)
Definition only_absent_added (seed : list InsertPolicy.t) (l l' : list Policy.t) : Prop :=
  forall c, rows_of c l' = rows_of c l
            \/ (rows_of c l = O /\ rows_of c l' = 1%nat /\ seeded_by seed c = true).

Definition duplicated_world : World :=
  mkWorld []
    []
    [Policy.mk 1 "call_logs" 2555 "Patient call recordings and transcripts" "HIPAA" true;
     Policy.mk 2 "call_logs" 30 "Short-lived call recordings" "GDPR" true]
    3 t2024 utc_zone [] [].

(** The redaction loop as a function on the property list of the copy. *)
Definition redact_props (field : string) (ps : list (string * Val))
  : Result (list (string * Val)) :=
  let v := lookup_prop field ps in
  if truthy v then
    if (field =? "phone")%string then
      match call_replace v phone_regex "$1$2***" with
      | Ok v' => Ok (assign_prop field v' ps)
      | Throw e => Throw e
      end
    else if (field =? "email")%string then
      match call_replace v email_regex "$1***$3" with
      | Ok v' => Ok (assign_prop field v' ps)
      | Throw e => Throw e
      end
    else Ok (assign_prop field (VStr "***REDACTED***") ps)
  else Ok ps.

Fixpoint redact_all (fields : list string) (ps : list (string * Val))
  : Result (list (string * Val)) :=
  match fields with
  | [] => Ok ps
  | f :: fields' =>
      match redact_props f ps with
      | Ok ps' => redact_all fields' ps'
      | Throw e => Throw e
      end
  end.

(** A value that the phone and email rules can handle: falsy (skipped) or a
    string. *)
Definition absent_falsy_or_string (v : Val) : bool :=
  negb (truthy v) || match v with VStr _ => true | _ => false end.

(** The fields whose rule calls [replace] on the value. *)
Definition uses_replace (field : string) : bool :=
  (field =? "phone")%string || (field =? "email")%string.

Definition breaks_redaction (ps : list (string * Val)) (field : string) : bool :=
  uses_replace field && negb (absent_falsy_or_string (lookup_prop field ps)).

Definition example_record : list (string * Val) :=
  [("phone", VStr "+447700900123"); ("email", VStr "jane@x.com"); ("name", VStr "Jane Doe")].

Definition example_redacted : list (string * Val) :=
  [("phone", VStr "+447700***"); ("email", VStr "j***@x.com");
   ("name", VStr "***REDACTED***")].

Definition all_digits (ds : list ascii) : Prop := Forall (fun c => is_digit c = true) ds.

(** The rest of the input does not continue a run of digits. *)
Definition no_digit_ahead (tl : list ascii) : Prop :=
  match tl with
  | [] => True
  | c :: _ => is_digit c = false
  end.

Definition retired_world : World :=
  mkWorld [] []
    [Policy.mk 1 "call_logs" 30 "Retired call policy" "GDPR" false]
    2 t2024 utc_zone [] [].

Definition redacted_literal : Val := VStr "***REDACTED***".

Definition patient_heap : Heap :=
  [Plain [("id", VNum 7); ("name", VNum 42); ("address", VRef 1); ("notes", VRef 1);
          ("phone", VStr EmptyString)];
   Plain [("street", VStr "1 High Street")]].

Definition no_line_terminator (cs : list ascii) : Prop :=
  Forall (fun c => is_line_terminator c = false) cs.

(** * Properties *)


(** *** The audit recorder *)

Ltac unfold_monad :=
  unfold bind, ret, try_catch, gets, modify, lift_result, throw in *.

Lemma storage_call_cases w :
  (exists w', storage_call w = (Ok tt, w') /\ same_tables w w' /\ console w' = console w)
  \/ (exists e w', storage_call w = (Throw e, w') /\ same_tables w w' /\ console w' = console w).
Proof.
  unfold storage_call, same_tables.
  destruct (script w) as [|o rest].
  - left. exists w. auto 10.
  - destruct (failure o) as [e|].
    + right. exists e. eexists. split; [reflexivity|]. simpl. auto 10.
    + left. eexists. split; [reflexivity|]. simpl. auto 10.
Qed.

Lemma storage_call_available w :
  available w ->
  exists w1, storage_call w = (Ok tt, w1) /\ same_tables w w1
             /\ console w1 = console w /\ available w1.
Proof.
  unfold available, storage_call, same_tables. intros H.
  destruct (script w) as [|o rest] eqn:Es.
  - exists w. rewrite Es. auto 10.
  - inversion H as [|? ? Ho Hrest]; subst. rewrite Ho.
    eexists. split; [reflexivity|]. simpl. auto 10.
Qed.

Lemma calculateRetentionDate_total entityType w :
  exists d w' lines,
    calculateRetentionDate entityType w = (Ok d, w')
    /\ same_tables w w'
    /\ console w' = console w ++ lines
    /\ ~ In failed_label lines.
Proof.
  unfold calculateRetentionDate, db_select_policies, new_Date, console_error.
  unfold_monad.
  destruct (storage_call_cases w) as [(w' & E & T & C)|(e & w' & E & T & C)]; rewrite E.
  - destruct (List.filter _ _) as [|policy rows]; simpl;
      do 2 eexists; exists []; rewrite app_nil_r; (split; [reflexivity|]); auto.
  - simpl. do 2 eexists. eexists. split; [reflexivity|]. simpl.
    unfold same_tables in *. simpl. rewrite C. split; [tauto|]. split; [reflexivity|].
    simpl. intros [H|[]]. discriminate.
Qed.
Lemma logAction_effect params w :
  exists w' lines,
    logAction params w = (Ok tt, w')
    /\ heap w' = heap w
    /\ dataRetentionPolicies w' = dataRetentionPolicies w
    /\ console w' = console w ++ lines
    /\ ((auditLogs w' = auditLogs w /\ In failed_label lines)
        \/ (exists details rd id ts,
               auditLogs w' = auditLogs w ++ [logged_row params details rd id ts]
               /\ ~ In failed_label lines
               /\ (if truthy (Params.details params)
                   then JSON_stringify (heap w) (Params.details params) = Ok details
                   else details = None)
               /\ exists d, fst (calculateRetentionDate (Params.entityType params) w) = Ok d
                            /\ timestamp_to_driver d = Ok rd)).
Proof.
  unfold logAction.
  destruct (calculateRetentionDate_total (Params.entityType params) w)
    as (d & w1 & lines & E & (Hh & Hl & Hp & Hn & Hz) & Hc & Hnot).
  unfold try_catch at 1. unfold bind at 1. rewrite E.
  assert (Hfail : forall w2 lines2,
    same_tables w w2 -> console w2 = console w ++ lines2 ->
    exists w' lines',
      console_error failed_label w2 = (Ok tt, w') /\ heap w' = heap w
      /\ dataRetentionPolicies w' = dataRetentionPolicies w
      /\ console w' = console w ++ lines'
      /\ (auditLogs w' = auditLogs w /\ In failed_label lines')).
  { intros w2 lines2 (Hh2 & Hl2 & Hp2 & Hn2 & Hz2) Hc2.
    unfold console_error, modify. do 2 eexists. split; [reflexivity|]. simpl.
    rewrite Hc2, <- app_assoc. repeat split; auto. apply in_or_app. right. left. reflexivity. }
  assert (Hdet : exists rdet,
     (if truthy (Params.details params)
      then bind (gets heap) (fun h => lift_result (JSON_stringify h (Params.details params)))
      else ret None) w1 = (rdet, w1)
     /\ match rdet with
        | Ok details =>
            if truthy (Params.details params)
            then JSON_stringify (heap w) (Params.details params) = Ok details
            else details = None
        | Throw _ => True
        end).
  { destruct (truthy (Params.details params)); unfold_monad.
    - rewrite Hh. eexists. split; [reflexivity|].
      destruct (JSON_stringify _ _); auto.
    - eexists. split; [reflexivity|]. reflexivity. }
  destruct Hdet as (rdet & Edet & Hdet).
  unfold bind at 1. rewrite Edet.
  destruct rdet as [details|e].
  2:{ destruct (Hfail w1 lines) as (w' & lines' & E' & ?); [unfold same_tables; auto|auto|].
      exists w', lines'. fold failed_label. rewrite E'. intuition. }
  unfold db_insert_auditLogs. unfold bind at 1. unfold lift_result at 1. simpl InsertAuditLog.retentionDate.
  destruct (timestamp_to_driver d) as [rd|e] eqn:Erd.
  2:{ destruct (Hfail w1 lines) as (w' & lines' & E' & ?); [unfold same_tables; auto|auto|].
      exists w', lines'. fold failed_label. rewrite E'. intuition. }
  unfold bind at 1.
  destruct (storage_call_cases w1) as [(w2 & E2 & T2 & C2)|(e & w2 & E2 & T2 & C2)]; rewrite E2.
  - unfold modify. exists (with_nextId (nextId w2 + 1)
       (with_auditLogs (auditLogs w2 ++ [logged_row params details rd (nextId w2) (clock w2)]) w2)), lines.
    destruct T2 as (Hh2 & Hl2 & Hp2 & Hn2 & Hz2).
    split; [reflexivity|]. simpl.
    repeat split; try congruence.
    right. exists details, rd, (nextId w2), (clock w2). rewrite Hl2, Hl.
    repeat split; auto. exists d. auto.
  - destruct (Hfail w2 lines) as (w' & lines' & E' & ?).
    + unfold same_tables in *. intuition congruence.
    + congruence.
    + exists w', lines'. fold failed_label. rewrite E'. intuition.
Qed.

(** C1. [logAction] returns normally for every action descriptor and every
    world: whatever the policy lookup, the serialization of the details or
    the insert do, no exception reaches the caller.  The retention policies
    are untouched and the audit table is either unchanged or extended by one
    row. *)
Theorem logAction_never_throws (params : Params.t) (w : World) :
  exists w',
    AuditService.logAction params w = (Ok tt, w')
    /\ dataRetentionPolicies w' = dataRetentionPolicies w
    /\ (auditLogs w' = auditLogs w \/ exists row, auditLogs w' = auditLogs w ++ [row]).
Proof.
  destruct (logAction_effect params w)
    as (w' & lines & E & _ & Hp & _ & [[Hs _]|(details & rd & id & ts & Happ & _)]).
  - exists w'. auto.
  - exists w'. split; [exact E|]. split; [exact Hp|]. right. eauto.
Qed.

(** C5 (amended). When the serialization of the details fails, the failure is
    caught by the single handler of [logAction]: the call returns normally,
    the failure is reported on the console and no audit row is written. *)
Theorem logAction_serialization_failure (params : Params.t) (w : World) (e : Thrown) :
  truthy (Params.details params) = true ->
  JSON_stringify (heap w) (Params.details params) = Throw e ->
  exists w' lines,
    AuditService.logAction params w = (Ok tt, w')
    /\ auditLogs w' = auditLogs w
    /\ console w' = console w ++ lines
    /\ In failed_label lines.
Proof.
  intros Ht Hs.
  destruct (logAction_effect params w)
    as (w' & lines & E & _ & _ & Hc & [[Hsame Hin]|(details & rd & id & ts & _ & _ & Hdet & _)]).
  - exists w', lines. auto.
  - rewrite Ht, Hs in Hdet. discriminate Hdet.
Qed.

(** The theorem applied to details that refer to themselves. *)
Lemma logAction_serialization_failure_witness :
  exists w' lines,
    AuditService.logAction (booking_params (VRef 0))
      (mkWorld cyclic_heap [] [] 1 t2024 utc_zone [] []) = (Ok tt, w')
    /\ auditLogs w' = []
    /\ console w' = [] ++ lines
    /\ In failed_label lines.
Proof.
  apply (logAction_serialization_failure (booking_params (VRef 0))
           (mkWorld cyclic_heap [] [] 1 t2024 utc_zone [] []) circular_error);
    reflexivity.
Defined.

(** C5 as stated fails: storage is available and the details (an object that
    refers to itself) cannot be serialized; no row at all is persisted, not
    even one without details. *)
Lemma logAction_serialization_failure_drops_entry :
  let w := mkWorld cyclic_heap [] [] 1 t2024 utc_zone [] [] in
  JSON_stringify (heap w) (VRef 0) = Throw circular_error
  /\ script w = []
  /\ fst (AuditService.logAction (booking_params (VRef 0)) w) = Ok tt
  /\ auditLogs (snd (AuditService.logAction (booking_params (VRef 0)) w)) = [].
Proof. vm_compute. repeat split; reflexivity. Qed.

(** *** Calendar arithmetic and the retention date *)

Lemma YearFromDay_spec d :
  DayFromYear (YearFromDay d) <= d < DayFromYear (YearFromDay d + 1).
Proof.
  unfold YearFromDay, DayFromYear.
  repeat case_match; Z.to_euclidean_division_equations; lia.
Qed.

Lemma DayFromYear_succ y : DayFromYear (y + 1) = DayFromYear y + DaysInYear y.
Proof.
  unfold DayFromYear, DaysInYear.
  repeat case_match; Z.to_euclidean_division_equations; lia.
Qed.

Lemma DayWithinYear_range t :
  0 <= DayWithinYear t < DaysInYear (YearFromTime t).
Proof.
  unfold DayWithinYear, YearFromTime.
  pose proof (YearFromDay_spec (Day t)) as H.
  rewrite DayFromYear_succ in H. lia.
Qed.

Lemma MonthFromTime_range t : 0 <= MonthFromTime t <= 11.
Proof. unfold MonthFromTime. repeat case_match; lia. Qed.

Lemma day_time_decompose t : Day t * msPerDay + TimeWithinDay t = t.
Proof.
  unfold Day, TimeWithinDay, msPerDay.
  Z.to_euclidean_division_equations; lia.
Qed.

(** [MakeDay] on the year, month and shifted date of a time value moves its
    day number by the shift. *)
Lemma MakeDay_shift t n :
  MakeDay (YearFromTime t) (MonthFromTime t) (DateFromTime t + n) = Day t + n.
Proof.
  pose proof (MonthFromTime_range t) as Hm.
  unfold MakeDay, DateFromTime.
  replace (MonthFromTime t / 12) with 0 by (Z.to_euclidean_division_equations; lia).
  replace (MonthFromTime t mod 12) with (MonthFromTime t)
    by (Z.to_euclidean_division_equations; lia).
  rewrite Z.add_0_r.
  change (if DaysInYear (YearFromTime t) =? 365 then 0 else 1) with (InLeapYear t).
  unfold DayWithinYear. lia.
Qed.

Lemma TimeWithinDay_range t : 0 <= TimeWithinDay t < msPerDay.
Proof. unfold TimeWithinDay, msPerDay. Z.to_euclidean_division_equations; lia. Qed.

Lemma MakeDate_fields d tw :
  0 <= tw < msPerDay ->
  Day (MakeDate d tw) = d /\ TimeWithinDay (MakeDate d tw) = tw.
Proof.
  intros H. unfold Day, TimeWithinDay, MakeDate, msPerDay in *.
  Z.to_euclidean_division_equations; lia.
Qed.

(** [d.setDate(d.getDate() + n)] moves the local time by [n] whole days and
    converts the result back to UTC. *)
Lemma setDate_getDate_add tza t n :
  Date_setDate tza (DateValue t) (num_add (Date_getDate tza (DateValue t)) (Some n))
  = TimeClip (UTC tza (MakeDate (Day (LocalTime tza t) + n)
                         (TimeWithinDay (LocalTime tza t)))).
Proof. simpl. rewrite MakeDay_shift. reflexivity. Qed.

Lemma DayFromYear_plus7 y :
  2555 <= DayFromYear (y + 7) - DayFromYear y <= 2557.
Proof.
  unfold DayFromYear. Z.to_euclidean_division_equations; lia.
Qed.

Lemma leap_flag y : (if DaysInYear y =? 365 then 0 else 1) = DaysInYear y - 365.
Proof. unfold DaysInYear. repeat case_match; lia. Qed.

Lemma monthStart_leap m l :
  0 <= m -> monthStart m l = monthStart m 0 + (if m <? 2 then 0 else l).
Proof. intros Hm. unfold monthStart. repeat case_match; lia. Qed.

(** Seven calendar years span 2555 days plus the leap days crossed. *)
Lemma seven_years_span t :
  exists k, 2555 <= k <= 2557
    /\ MakeDay (YearFromTime t + 7) (MonthFromTime t) (DateFromTime t) = Day t + k.
Proof.
  pose proof (MonthFromTime_range t) as Hm.
  exists (MakeDay (YearFromTime t + 7) (MonthFromTime t) (DateFromTime t) - Day t).
  split; [|lia].
  unfold MakeDay, DateFromTime, InLeapYear, DayWithinYear.
  replace (MonthFromTime t / 12) with 0 by (Z.to_euclidean_division_equations; lia).
  replace (MonthFromTime t mod 12) with (MonthFromTime t)
    by (Z.to_euclidean_division_equations; lia).
  rewrite Z.add_0_r, !leap_flag.
  set (y := YearFromTime t). set (m := MonthFromTime t).
  rewrite (monthStart_leap m (DaysInYear (y + 7) - 365)) by lia.
  rewrite (monthStart_leap m (DaysInYear y - 365)) by lia.
  pose proof (DayFromYear_plus7 y) as H0.
  pose proof (DayFromYear_plus7 (y + 1)) as H1.
  pose proof (DayFromYear_succ y) as S0.
  pose proof (DayFromYear_succ (y + 7)) as S7.
  replace (y + 1 + 7) with (y + 7 + 1) in H1 by lia.
  destruct (m <? 2); lia.
Qed.
Lemma DayFromYear_mono a b : a <= b -> DayFromYear a <= DayFromYear b.
Proof.
  intros H. unfold DayFromYear. Z.to_euclidean_division_equations; lia.
Qed.

Lemma YearFromDay_unique d y :
  DayFromYear y <= d < DayFromYear (y + 1) -> YearFromDay d = y.
Proof.
  intros H. pose proof (YearFromDay_spec d) as S.
  destruct (Z.lt_trichotomy (YearFromDay d) y) as [L|[E|G]]; [|exact E|].
  - pose proof (DayFromYear_mono (YearFromDay d + 1) y ltac:(lia)). lia.
  - pose proof (DayFromYear_mono (y + 1) (YearFromDay d) ltac:(lia)). lia.
Qed.

(** Moving a date to another year keeps it inside that year. *)
Lemma MakeDay_year t y :
  DayFromYear y
  <= MakeDay y (MonthFromTime t) (DateFromTime t)
  < DayFromYear (y + 1).
Proof.
  pose proof (DayWithinYear_range t) as Hd.
  rewrite DayFromYear_succ.
  unfold MakeDay, DateFromTime.
  pose proof (MonthFromTime_range t) as Hm.
  replace (MonthFromTime t / 12) with 0 by (Z.to_euclidean_division_equations; lia).
  replace (MonthFromTime t mod 12) with (MonthFromTime t)
    by (Z.to_euclidean_division_equations; lia).
  rewrite Z.add_0_r, leap_flag.
  unfold InLeapYear in *. rewrite leap_flag in *.
  assert (HL : 365 <= DaysInYear y <= 366) by (unfold DaysInYear; repeat case_match; lia).
  assert (HL' : 365 <= DaysInYear (YearFromTime t) <= 366)
    by (unfold DaysInYear; repeat case_match; lia).
  revert Hm. unfold MonthFromTime. unfold InLeapYear. rewrite leap_flag.
  generalize dependent (DayWithinYear t). intros dwy Hd.
  generalize dependent (DaysInYear (YearFromTime t)). intros l1 Hd HL'.
  generalize dependent (DaysInYear y). intros l2 HL.
  generalize (DayFromYear y). intros base.
  unfold monthStart.
  repeat case_match; lia.
Qed.
Lemma setFullYear_plus7 tza t :
  exists k, 2555 <= k <= 2557
    /\ Date_setFullYear tza (DateValue t)
         (num_add (Date_getFullYear tza (DateValue t)) (Some 7))
       = TimeClip (UTC tza (MakeDate (Day (LocalTime tza t) + k)
                              (TimeWithinDay (LocalTime tza t))))
    /\ YearFromDay (Day (LocalTime tza t) + k) = YearFromTime (LocalTime tza t) + 7.
Proof.
  destruct (seven_years_span (LocalTime tza t)) as (k & Hk & E).
  exists k. split; [exact Hk|]. split.
  - simpl. rewrite E. reflexivity.
  - rewrite <- E. apply YearFromDay_unique. apply MakeDay_year.
Qed.



(** A failed policy lookup is swallowed: the resolved date is [null]. *)
Lemma calculateRetentionDate_lookup_failure (entityType : string) (w w1 : World) (e : Thrown) :
  storage_call w = (Throw e, w1) ->
  fst (AuditService.calculateRetentionDate entityType w) = Ok None.
Proof.
  intros E. unfold AuditService.calculateRetentionDate, db_select_policies, console_error.
  unfold_monad. rewrite E. reflexivity.
Qed.


(** Calendar days are not elapsed days: on a host on United Kingdom time, a
    one-day policy applied on 30 March 2024 at 12:00 UTC (the day before the
    clocks go forward) gives 31 March at noon local time, 23 hours later. *)
Example one_calendar_day_across_clock_change :
  fst (calculateRetentionDate "appointments"
         (mkWorld [] []
            [Policy.mk 1 "appointments" 1 "Short retention" "GDPR" true]
            2 1711800000000 london_2024 [] []))
  = Ok (Some (DateValue (1711800000000 + 23 * 3600000))).
Proof. vm_compute. reflexivity. Qed.

(** *** The sweep *)

Lemma get_obj_alloc (h : Heap) (o : Obj) : get_obj (h ++ [o]) (List.length h) = o.
Proof.
  unfold get_obj. rewrite lookup_app_r by lia.
  replace (List.length h - List.length h)%nat with O by lia. reflexivity.
Qed.

Lemma serialize_number fuel (h : Heap) stack n :
  SerializeJSONProperty fuel h stack (VNum n) = Ok (Some (string_of_Z n)).
Proof. destruct fuel; reflexivity. Qed.

Lemma stringify_deletedCount (h : Heap) (n : nat) :
  JSON_stringify (h ++ [Plain [("deletedCount", VNum (Z.of_nat n))]]) (VRef (List.length h))
  = Ok (Some (deletedCount_json n)).
Proof.
  unfold JSON_stringify. cbn [SerializeJSONProperty existsb].
  rewrite get_obj_alloc, serialize_number. reflexivity.
Qed.

Lemma cleanup_effect w :
  exists n w' lines extra,
    AuditService.cleanupExpiredLogs w = (Ok n, w')
    /\ console w' = console w ++ lines
    /\ dataRetentionPolicies w' = dataRetentionPolicies w
    /\ match fst (storage_call w) with
       | Ok _ =>
           n = List.length (List.filter (expired (clock w)) (auditLogs w))
           /\ auditLogs w'
              = List.filter (fun r => negb (expired (clock w) r)) (auditLogs w) ++ extra
           /\ ((extra = [] /\ In failed_label lines)
               \/ (exists rd id ts,
                      extra = [cleanup_row true (Some (deletedCount_json n)) None rd id ts]
                      /\ ~ In failed_label lines))
       | Throw e =>
           n = O
           /\ auditLogs w' = auditLogs w ++ extra
           /\ ((extra = [] /\ In failed_label lines)
               \/ (exists rd id ts,
                      extra = [cleanup_row false None (Some (error_message e)) rd id ts]
                      /\ ~ In failed_label lines))
       end.
Proof.
  unfold AuditService.cleanupExpiredLogs.
  unfold try_catch at 1. unfold bind at 1. unfold new_Date at 1. unfold gets at 1.
  unfold bind at 1. unfold db_delete_auditLogs. unfold bind at 1.
  destruct (storage_call_cases w) as [(w1 & E & (Hh & Hl & Hp & Hn & Hz) & C)|(e & w1 & E & (Hh & Hl & Hp & Hn & Hz) & C)];
    rewrite E; cbn [fst].
  - unfold bind at 1. unfold gets at 1. unfold bind at 1. unfold modify at 1.
    unfold ret at 1. unfold bind at 1. unfold console_log at 1. unfold modify at 1.
    unfold bind at 1. unfold lift_heap at 1. unfold alloc at 1.
    cbn [heap with_console with_auditLogs]. rewrite length_map.
    unfold bind at 1.
    match goal with |- context [AuditService.logAction ?p ?wm] =>
      destruct (logAction_effect p wm) as (w' & lines & El & Hh' & Hp' & Hc' & Hrow)
    end.
    rewrite El. unfold ret.
    cbn [heap auditLogs console dataRetentionPolicies with_heap with_console with_auditLogs] in *.
    rewrite Hl in *.
    destruct Hrow as [[Hsame Hin]|(details & rd & id & ts & Happ & Hnin & Hdet & _)].
    + do 3 eexists. exists []. split; [reflexivity|].
      rewrite Hc', C, Hp', Hp, <- app_assoc. split; [reflexivity|]. split; [reflexivity|].
      split; [reflexivity|]. split.
      * rewrite Hsame. rewrite app_nil_r. reflexivity.
      * left. split; [reflexivity|]. apply in_or_app. right. exact Hin.
    + cbn [truthy Params.details] in Hdet. rewrite Hh in Hdet.
      rewrite stringify_deletedCount in Hdet. inversion Hdet; subst details.
      do 4 eexists. split; [reflexivity|].
      rewrite Hc', C, Hp', Hp, <- app_assoc. split; [reflexivity|]. split; [reflexivity|].
      split; [reflexivity|].
      split; [exact Happ|].
      right. exists rd, id, ts. split; [reflexivity|].
      intros Hin. apply in_app_or in Hin. destruct Hin as [Hin|Hin]; [|tauto].
      destruct Hin as [Hin|[]]. discriminate Hin.
  - unfold bind at 1. unfold console_error at 1. unfold modify at 1.
    unfold bind at 1.
    match goal with |- context [AuditService.logAction ?p ?wm] =>
      destruct (logAction_effect p wm) as (w' & lines & El & Hh' & Hp' & Hc' & Hrow)
    end.
    rewrite El. unfold ret.
    cbn [heap auditLogs console dataRetentionPolicies with_heap with_console with_auditLogs] in *.
    rewrite Hl in *.
    destruct Hrow as [[Hsame Hin]|(details & rd & id & ts & Happ & Hnin & Hdet & _)].
    + do 3 eexists. exists []. split; [reflexivity|].
      rewrite Hc', C, Hp', Hp, <- app_assoc. split; [reflexivity|]. split; [reflexivity|].
      split; [reflexivity|]. split.
      * rewrite Hsame. rewrite app_nil_r. reflexivity.
      * left. split; [reflexivity|]. apply in_or_app. right. exact Hin.
    + cbn [truthy Params.details] in Hdet. subst details.
      do 4 eexists. split; [reflexivity|].
      rewrite Hc', C, Hp', Hp, <- app_assoc. split; [reflexivity|]. split; [reflexivity|].
      split; [reflexivity|].
      split; [exact Happ|].
      right. exists rd, id, ts. split; [reflexivity|].
      intros Hin. apply in_app_or in Hin. destruct Hin as [Hin|Hin]; [|tauto].
      destruct Hin as [Hin|[]]. discriminate Hin.
Qed.

(** C3. When the delete statement is not rejected, the sweep removes exactly
    the rows whose retention date is set and strictly before [now], keeps all
    the others (in particular every row without retention date) and returns
    the number of removed rows.  The only row that can be new afterwards is
    the one the sweep writes about itself. *)
Theorem cleanupExpiredLogs_deletes_exactly_expired (w w1 : World) :
  storage_call w = (Ok tt, w1) ->
  let now := clock w in
  exists w' extra,
    AuditService.cleanupExpiredLogs w
    = (Ok (List.length (List.filter (expired now) (auditLogs w))), w')
    /\ auditLogs w'
       = List.filter (fun r => negb (expired now r)) (auditLogs w) ++ extra
    /\ (List.length extra <= 1)%nat
    /\ (forall r, In r extra -> AuditLog.action r = "CLEANUP_EXPIRED_LOGS")
    /\ (forall r, In r (auditLogs w) ->
          (In r (List.filter (fun r => negb (expired now r)) (auditLogs w))
           <-> ~ (exists d, AuditLog.retentionDate r = Some d /\ d < now)))
    /\ (forall r, In r (auditLogs w) -> AuditLog.retentionDate r = None -> In r (auditLogs w')).
Proof.
  intros E now.
  destruct (cleanup_effect w) as (n & w' & lines & extra & Ec & _ & _ & H).
  rewrite E in H. cbn [fst] in H. destruct H as (Hn & Hl & Hx). subst n.
  exists w', extra. split; [exact Ec|]. split; [exact Hl|].
  assert (Hsurv : forall r, In r (auditLogs w) ->
            (In r (List.filter (fun r => negb (expired now r)) (auditLogs w))
             <-> ~ (exists d, AuditLog.retentionDate r = Some d /\ d < now))).
  { intros r Hr. rewrite filter_In. unfold expired.
    destruct (AuditLog.retentionDate r) as [d|].
    - destruct (Z.ltb_spec d now).
      + split; [intros [_ Hf]; discriminate Hf|]. intros Hf. exfalso. apply Hf. eauto.
      + split; [|auto]. intros _ (d' & Hd' & Hlt). inversion Hd'; subst. lia.
    - split; [|auto]. intros _ (d' & Hd' & _). discriminate Hd'. }
  split; [|split; [|split; [exact Hsurv|]]].
  - destruct Hx as [[-> _]|(rd & id & ts & -> & _)]; simpl; lia.
  - intros r Hr. destruct Hx as [[-> _]|(rd & id & ts & -> & _)].
    + destruct Hr.
    + destruct Hr as [<-|[]]. reflexivity.
  - intros r Hr Hnone. rewrite Hl. apply in_or_app. left.
    apply Hsurv; [exact Hr|]. intros (d & Hd & _). congruence.
Qed.

(** The theorem applied to the example: exactly the first row goes and the
    result is 1. *)
Lemma cleanupExpiredLogs_deletes_exactly_expired_witness :
  exists w' extra,
    AuditService.cleanupExpiredLogs sweep_world = (Ok 1%nat, w')
    /\ auditLogs w'
       = [example_row 2 (Some (t2024 + msPerDay)); example_row 3 None] ++ extra.
Proof.
  destruct (cleanupExpiredLogs_deletes_exactly_expired sweep_world sweep_world eq_refl)
    as (w' & extra & E & Hl & _).
  exists w', extra. split; [exact E|exact Hl].
Defined.

Lemma app_one_neq {A} (l : list A) (x : A) : l <> l ++ [x].
Proof.
  intros H. apply (f_equal (@List.length A)) in H.
  rewrite length_app in H. simpl in H. lia.
Qed.

Lemma logAction_written_iff params w :
  (exists row, auditLogs (snd (logAction params w)) = auditLogs w ++ [row])
  <-> ((truthy (Params.details params) = true ->
        exists s, JSON_stringify (heap w) (Params.details params) = Ok s)
       /\ write_accepted (Params.entityType params) w).
Proof.
  destruct (calculateRetentionDate_total (Params.entityType params) w)
    as (d & w1 & lines & E & (Hh & Hl & Hp & Hn & Hz) & Hc & Hnot).
  unfold write_accepted. rewrite E. cbn [fst snd].
  unfold logAction. unfold try_catch at 1. unfold bind at 1. rewrite E.
  assert (Hfail : forall w2, auditLogs w2 = auditLogs w ->
            ~ exists row,
                auditLogs (snd (console_error "Failed to log audit action:" w2))
                = auditLogs w ++ [row]).
  { intros w2 H2 (row & Hr). unfold console_error, modify in Hr. simpl in Hr.
    rewrite H2 in Hr. exact (app_one_neq _ _ Hr). }
  destruct (truthy (Params.details params)) eqn:Ht.
  - unfold bind at 1. unfold bind at 1. unfold gets at 1. unfold lift_result at 1.
    rewrite Hh.
    destruct (JSON_stringify (heap w) (Params.details params)) as [s|e] eqn:Es.
    2:{ split.
        - intros H. exfalso. exact (Hfail w1 Hl H).
        - intros [H _]. destruct (H eq_refl) as (s & Hs). discriminate Hs. }
    unfold db_insert_auditLogs. unfold bind at 1. unfold lift_result at 1.
    cbn [InsertAuditLog.retentionDate].
    destruct d as [[t|]|]; cbn [timestamp_to_driver].
    + unfold bind at 1.
      destruct (storage_call_cases w1)
        as [(w2 & E2 & (Hh2 & Hl2 & _) & _)|(e & w2 & E2 & (Hh2 & Hl2 & _) & _)]; rewrite E2.
      * unfold modify. cbn [fst snd auditLogs with_nextId with_auditLogs].
        split; [|intros _; rewrite Hl2, Hl; eauto].
        intros _. split; [eauto|]. split; [discriminate|reflexivity].
      * split.
        -- intros H. exfalso. apply (Hfail w2); [congruence|exact H].
        -- intros (_ & _ & H). discriminate H.
    + split.
      * intros H. exfalso. exact (Hfail w1 Hl H).
      * intros (_ & H & _). congruence.
    + unfold bind at 1.
      destruct (storage_call_cases w1)
        as [(w2 & E2 & (Hh2 & Hl2 & _) & _)|(e & w2 & E2 & (Hh2 & Hl2 & _) & _)]; rewrite E2.
      * unfold modify. cbn [fst snd auditLogs with_nextId with_auditLogs].
        split; [|intros _; rewrite Hl2, Hl; eauto].
        intros _. split; [eauto|]. split; [discriminate|reflexivity].
      * split.
        -- intros H. exfalso. apply (Hfail w2); [congruence|exact H].
        -- intros (_ & _ & H). discriminate H.
  - unfold bind at 1. unfold ret at 1.
    unfold db_insert_auditLogs. unfold bind at 1. unfold lift_result at 1.
    cbn [InsertAuditLog.retentionDate].
    destruct d as [[t|]|]; cbn [timestamp_to_driver].
    + unfold bind at 1.
      destruct (storage_call_cases w1)
        as [(w2 & E2 & (Hh2 & Hl2 & _) & _)|(e & w2 & E2 & (Hh2 & Hl2 & _) & _)]; rewrite E2.
      * unfold modify. cbn [fst snd auditLogs with_nextId with_auditLogs].
        split; [|intros _; rewrite Hl2, Hl; eauto].
        intros _. split; [discriminate|]. split; [discriminate|reflexivity].
      * split.
        -- intros H. exfalso. apply (Hfail w2); [congruence|exact H].
        -- intros (_ & _ & H). discriminate H.
    + split.
      * intros H. exfalso. exact (Hfail w1 Hl H).
      * intros (_ & H & _). congruence.
    + unfold bind at 1.
      destruct (storage_call_cases w1)
        as [(w2 & E2 & (Hh2 & Hl2 & _) & _)|(e & w2 & E2 & (Hh2 & Hl2 & _) & _)]; rewrite E2.
      * unfold modify. cbn [fst snd auditLogs with_nextId with_auditLogs].
        split; [|intros _; rewrite Hl2, Hl; eauto].
        intros _. split; [discriminate|]. split; [discriminate|reflexivity].
      * split.
        -- intros H. exfalso. apply (Hfail w2); [congruence|exact H].
        -- intros (_ & _ & H). discriminate H.
Qed.

Lemma calculateRetentionDate_available entityType w :
  available w -> available (snd (calculateRetentionDate entityType w)).
Proof.
  intros Ha. unfold calculateRetentionDate, db_select_policies, new_Date. unfold_monad.
  destruct (storage_call_available w Ha) as (w1 & E & _ & _ & Ha1). rewrite E.
  destruct (List.filter _ _); exact Ha1.
Qed.

(** The sweep is one delete followed by one call of [logAction]. *)
Lemma cleanup_run w :
  cleanupExpiredLogs w
  = (Ok (match fst (storage_call w) with Ok _ => swept_count w | Throw _ => O end),
     snd (logAction (self_log_params w) (self_log_world w))).
Proof.
  unfold cleanupExpiredLogs, self_log_params, self_log_world, swept_count.
  unfold try_catch at 1. unfold bind at 1. unfold new_Date at 1. unfold gets at 1.
  unfold bind at 1. unfold db_delete_auditLogs. unfold bind at 1.
  destruct (storage_call_cases w)
    as [(w1 & E & (Hh & Hl & Hp & Hn & Hz) & C)|(e & w1 & E & (Hh & Hl & Hp & Hn & Hz) & C)];
    rewrite E; cbn [fst].
  - unfold bind at 1. unfold gets at 1. unfold bind at 1. unfold modify at 1.
    unfold ret at 1. unfold bind at 1. unfold console_log at 1. unfold modify at 1.
    unfold bind at 1. unfold lift_heap at 1. unfold alloc at 1.
    cbn [heap with_console with_auditLogs]. rewrite length_map.
    unfold bind at 1. cbv zeta. cbn [console with_auditLogs].
    match goal with |- context [logAction ?p ?wm] =>
      destruct (logAction_effect p wm) as (w' & lines & El & _)
    end.
    rewrite El. unfold ret. cbn [snd]. rewrite Hl. reflexivity.
  - unfold bind at 1. unfold console_error at 1. unfold modify at 1.
    unfold bind at 1.
    match goal with |- context [logAction ?p ?wm] =>
      destruct (logAction_effect p wm) as (w' & lines & El & _)
    end.
    rewrite El. reflexivity.
Qed.

(** C4 (amended). Every call of the sweep returns normally and makes exactly
    one call of [logAction] to record itself, with actor "system" and action
    "CLEANUP_EXPIRED_LOGS": with [successful = true] and the deleted count as
    details when the delete went through, with [successful = false], the
    message of the error and the result 0 when the delete was rejected.
    Exactly one row is added when that write goes through, that is when the
    resolved retention date can be stored and the storage accepts the insert
    (in particular whenever no storage call is rejected); when the write
    fails, nothing is added and the failure is only reported on the
    console. *)
Theorem cleanupExpiredLogs_self_log (w : World) :
  exists n w' lines extra,
    AuditService.cleanupExpiredLogs w = (Ok n, w')
    /\ console w' = console w ++ lines
    /\ dataRetentionPolicies w' = dataRetentionPolicies w
    /\ match fst (storage_call w) with
       | Ok _ =>
           n = List.length (List.filter (expired (clock w)) (auditLogs w))
           /\ auditLogs w'
              = List.filter (fun r => negb (expired (clock w) r)) (auditLogs w) ++ extra
           /\ ((extra = [] /\ In failed_label lines)
               \/ (exists rd id ts,
                      extra = [cleanup_row true (Some (deletedCount_json n)) None rd id ts]
                      /\ ~ In failed_label lines))
       | Throw e =>
           n = O
           /\ auditLogs w' = auditLogs w ++ extra
           /\ ((extra = [] /\ In failed_label lines)
               \/ (exists rd id ts,
                      extra = [cleanup_row false None (Some (error_message e)) rd id ts]
                      /\ ~ In failed_label lines))
       end
    /\ w' = snd (AuditService.logAction (self_log_params w) (self_log_world w))
    /\ (extra <> [] <-> write_accepted "audit_logs" (self_log_world w))
    /\ (available w ->
        fst (AuditService.calculateRetentionDate "audit_logs" (self_log_world w))
        <> Ok (Some InvalidDate) ->
        extra <> []).
Proof.
  destruct (cleanup_effect w) as (n & w' & lines & extra & Ec & Hc & Hp & H).
  exists n, w', lines, extra.
  split; [exact Ec|]. split; [exact Hc|]. split; [exact Hp|]. split; [exact H|].
  pose proof (cleanup_run w) as Hrun. rewrite Ec in Hrun.
  assert (Hw : w' = snd (logAction (self_log_params w) (self_log_world w)))
    by (inversion Hrun; reflexivity).
  split; [exact Hw|].
  assert (Het : Params.entityType (self_log_params w) = "audit_logs")
    by (unfold self_log_params; destruct (storage_call w) as [[u|e] w1]; reflexivity).
  assert (Hser : truthy (Params.details (self_log_params w)) = true ->
                 exists s, JSON_stringify (heap (self_log_world w))
                             (Params.details (self_log_params w)) = Ok s).
  { unfold self_log_params, self_log_world.
    destruct (storage_call w) as [[u|e] w1]; cbn [Params.details truthy].
    - intros _. cbv zeta. cbn [heap with_heap]. eexists. apply stringify_deletedCount.
    - intros Hf. discriminate Hf. }
  assert (Hbase : auditLogs w' = auditLogs (self_log_world w) ++ extra
                  /\ (extra = [] \/ exists row, extra = [row])).
  { unfold self_log_world.
    destruct (storage_call_cases w)
      as [(w1 & E & (Hh & Hl & _) & _)|(e & w1 & E & (Hh & Hl & _) & _)];
      rewrite E in H |- *; cbn [fst] in H; destruct H as (Hn & Ha & Hx);
      cbv zeta; cbn [auditLogs with_heap with_console with_auditLogs]; rewrite Hl.
    - split; [exact Ha|]. destruct Hx as [[-> _]|(rd & id & ts & -> & _)]; eauto.
    - split; [exact Ha|]. destruct Hx as [[-> _]|(rd & id & ts & -> & _)]; eauto. }
  destruct Hbase as [Hbase Hshape].
  assert (Hiff : extra <> [] <-> write_accepted "audit_logs" (self_log_world w)).
  { pose proof (logAction_written_iff (self_log_params w) (self_log_world w)) as Hwr.
    rewrite <- Hw, Het in Hwr. split.
    - intros Hne. apply Hwr. destruct Hshape as [->|(row & ->)]; [congruence|].
      exists row. exact Hbase.
    - intros Hacc Hnil. subst extra. rewrite app_nil_r in Hbase.
      destruct Hwr as [_ Hwr]. destruct (Hwr (conj Hser Hacc)) as (row & Hrow).
      rewrite Hbase in Hrow. exact (app_one_neq _ _ Hrow). }
  split; [exact Hiff|].
  intros Hav Hdate. apply Hiff. split; [exact Hdate|].
  assert (Hav' : available (self_log_world w)).
  { unfold self_log_world.
    destruct (storage_call_available w Hav) as (w1 & E & _ & _ & Ha1). rewrite E.
    exact Ha1. }
  pose proof (calculateRetentionDate_available "audit_logs" _ Hav') as Hav2.
  destruct (storage_call_available _ Hav2) as (w3 & E3 & _). rewrite E3. reflexivity.
Qed.

(** The theorem applied to the example store with the storage working: the
    row about the sweep is written. *)
Lemma cleanupExpiredLogs_self_log_witness :
  exists w',
    AuditService.cleanupExpiredLogs sweep_world = (Ok 1%nat, w')
    /\ exists rd id ts,
         auditLogs w'
         = [example_row 2 (Some (t2024 + msPerDay)); example_row 3 None;
            cleanup_row true (Some (deletedCount_json 1)) None rd id ts].
Proof.
  destruct (cleanupExpiredLogs_self_log sweep_world)
    as (n & w' & lines & extra & Ec & _ & _ & H & _ & _ & Hav).
  cbn [fst] in H. destruct H as (Hn & Hl & Hx).
  assert (Hne : extra <> []).
  { apply Hav; [constructor|]. vm_compute. intros Hd. discriminate Hd. }
  destruct Hx as [[Hnil _]|(rd & id & ts & Hx & _)]; [contradiction|].
  exists w'. subst n extra. split; [exact Ec|]. exists rd, id, ts. exact Hl.
Defined.

(** C4 as stated fails: with the storage down, the delete is rejected, and so
    is the insert of the row that should report it; the sweep returns 0 and
    no audit row exists afterwards. *)
Lemma cleanupExpiredLogs_may_record_nothing :
  let w := mkWorld [] [] [] 1 t2024 utc_zone [storage_down; storage_down; storage_down] [] in
  fst (AuditService.cleanupExpiredLogs w) = Ok O
  /\ auditLogs (snd (AuditService.cleanupExpiredLogs w)) = auditLogs w
  /\ ~ (exists row, auditLogs (snd (AuditService.cleanupExpiredLogs w)) = auditLogs w ++ [row]).
Proof.
  vm_compute. split; [reflexivity|]. split; [reflexivity|].
  intros (row & H). discriminate H.
Qed.

(** *** The trail reader *)

Lemma insert_by_timestamp_perm x l : Permutation (insert_by_timestamp x l) (x :: l).
Proof.
  induction l as [|y l IH]; simpl.
  - apply Permutation_refl.
  - destruct (AuditLog.timestamp x <=? AuditLog.timestamp y).
    + apply Permutation_refl.
    + eapply Permutation_trans; [apply perm_skip, IH|apply perm_swap].
Qed.

Lemma order_by_timestamp_perm l : Permutation (order_by_timestamp l) l.
Proof.
  induction l as [|x l IH]; simpl.
  - apply perm_nil.
  - eapply Permutation_trans; [apply insert_by_timestamp_perm|apply perm_skip, IH].
Qed.

Lemma insert_by_timestamp_sorted x l :
  StronglySorted by_timestamp l -> StronglySorted by_timestamp (insert_by_timestamp x l).
Proof.
  induction 1 as [|y l Hs IH Hy]; simpl.
  - constructor; constructor.
  - destruct (Z.leb_spec (AuditLog.timestamp x) (AuditLog.timestamp y)) as [Hle|Hgt].
    + constructor; [constructor; assumption|].
      constructor; [exact Hle|].
      rewrite Forall_forall in *. intros z Hz. specialize (Hy z Hz).
      unfold by_timestamp in *. lia.
    + constructor; [exact IH|].
      rewrite Forall_forall in *. intros z Hz.
      apply list_elem_of_In in Hz.
      eapply Permutation_in in Hz; [|apply insert_by_timestamp_perm].
      destruct Hz as [<-|Hz]; [unfold by_timestamp; lia|].
      apply Hy, list_elem_of_In, Hz.
Qed.

Lemma order_by_timestamp_sorted l : StronglySorted by_timestamp (order_by_timestamp l).
Proof.
  induction l as [|x l IH]; simpl.
  - constructor.
  - apply insert_by_timestamp_sorted, IH.
Qed.

Lemma StronglySorted_take {A} (R : A -> A -> Prop) n (l : list A) :
  StronglySorted R l -> StronglySorted R (take n l).
Proof.
  intros H. revert n. induction H as [|x l Hs IH Hx]; intros [|n]; simpl; try constructor.
  - apply IH.
  - apply Forall_forall. intros y Hy. rewrite Forall_forall in Hx. apply Hx.
    eapply subseteq_take, Hy.
Qed.

(** C7. [getAuditTrail] never throws.  It returns only rows of the audit
    table whose entity type and entity id both equal the arguments, in
    ascending order of creation timestamp, and at most [limit] of them
    (100 when no limit is given): the first [limit] rows of the matching rows
    sorted by timestamp.  When the storage query fails the result is the
    empty list. *)
Theorem getAuditTrail_spec (entityType entityId : string) (limit : option nat) (w : World) :
  exists res w',
    AuditService.getAuditTrail entityType entityId limit w = (Ok res, w')
    /\ auditLogs w' = auditLogs w
    /\ Forall (fun r => In r (auditLogs w)
                        /\ AuditLog.entityType r = entityType
                        /\ AuditLog.entityId r = Some entityId) res
    /\ StronglySorted by_timestamp res
    /\ (List.length res <= default 100 limit)%nat
    /\ match fst (storage_call w) with
       | Ok _ =>
           exists sorted,
             Permutation sorted (List.filter (trail_match entityType entityId) (auditLogs w))
             /\ StronglySorted by_timestamp sorted
             /\ res = take (default 100%nat limit) sorted
       | Throw _ => res = []
       end.
Proof.
  unfold AuditService.getAuditTrail, db_select_auditLogs. unfold_monad.
  fold (trail_match entityType entityId).
  destruct (storage_call_cases w)
    as [(w1 & E & (Hh & Hl & Hp & Hn & Hz) & C)|(e & w1 & E & (Hh & Hl & Hp & Hn & Hz) & C)];
    rewrite E; cbn [fst].
  - do 2 eexists. split; [reflexivity|]. rewrite Hl.
    set (matching := List.filter (trail_match entityType entityId) (auditLogs w)).
    split; [reflexivity|]. split; [|split; [|split]].
    + apply Forall_forall. intros r Hr.
      apply subseteq_take in Hr. apply list_elem_of_In in Hr.
      eapply Permutation_in in Hr; [|apply order_by_timestamp_perm].
      apply filter_In in Hr. destruct Hr as [Hin Hm]. split; [exact Hin|].
      unfold trail_match in Hm. apply andb_prop in Hm. destruct Hm as [Ht Hi].
      apply String.eqb_eq in Ht. split; [exact Ht|].
      unfold sql_eq_string in Hi. destruct (AuditLog.entityId r) as [s|]; [|discriminate].
      apply String.eqb_eq in Hi. congruence.
    + apply StronglySorted_take, order_by_timestamp_sorted.
    + rewrite length_take. lia.
    + exists (order_by_timestamp matching).
      split; [apply order_by_timestamp_perm|].
      split; [apply order_by_timestamp_sorted|reflexivity].
  - unfold console_error, modify. do 2 eexists. split; [reflexivity|]. simpl.
    split; [exact Hl|]. split; [constructor|]. split; [constructor|]. split; [lia|reflexivity].
Qed.

(** *** Seeding of the default policies *)

Lemma rows_of_app c l1 l2 : rows_of c (l1 ++ l2) = (rows_of c l1 + rows_of c l2)%nat.
Proof. unfold rows_of. rewrite List.filter_app, length_app. reflexivity. Qed.

Lemma rows_of_policy_row c id v :
  rows_of c [policy_row id v] = if (InsertPolicy.dataType v =? c)%string then 1%nat else 0%nat.
Proof. unfold rows_of. simpl. destruct (_ =? _)%string; reflexivity. Qed.

(** One iteration of the seeding loop, whatever the storage does: the
    policy table is unchanged or gains one row of a category it lacked. *)
Lemma seed_one_step v w :
  exists r w',
    AuditService.seed_one v w = (r, w')
    /\ auditLogs w' = auditLogs w
    /\ (dataRetentionPolicies w' = dataRetentionPolicies w
        \/ (rows_of (InsertPolicy.dataType v) (dataRetentionPolicies w) = O
            /\ exists id, dataRetentionPolicies w'
                          = dataRetentionPolicies w ++ [policy_row id v])).
Proof.
  unfold AuditService.seed_one, db_select_policies, db_insert_policies. unfold_monad.
  destruct (storage_call_cases w)
    as [(w1 & E & (Hh & Hl & Hp & Hn & Hz) & C)|(e & w1 & E & (Hh & Hl & Hp & Hn & Hz) & C)];
    rewrite E.
  2:{ do 2 eexists. split; [reflexivity|]. auto. }
  rewrite Hp. fold (rows_of (InsertPolicy.dataType v) (dataRetentionPolicies w)).
  destruct (Nat.eqb_spec (rows_of (InsertPolicy.dataType v) (dataRetentionPolicies w)) 0)
    as [Hz0|Hnz].
  2:{ do 2 eexists. split; [reflexivity|]. auto. }
  destruct (storage_call_cases w1)
    as [(w2 & E2 & (Hh2 & Hl2 & Hp2 & Hn2 & Hz2) & C2)|(e & w2 & E2 & (Hh2 & Hl2 & Hp2 & Hn2 & Hz2) & C2)];
    rewrite E2.
  - do 2 eexists. split; [reflexivity|]. simpl. split; [congruence|].
    right. split; [exact Hz0|]. exists (nextId w2). rewrite Hp2, Hp. reflexivity.
  - do 2 eexists. split; [reflexivity|]. split; [congruence|]. left. congruence.
Qed.

Lemma for_of_seed_step seed w :
  exists r w',
    for_of seed AuditService.seed_one w = (r, w')
    /\ auditLogs w' = auditLogs w
    /\ only_absent_added seed (dataRetentionPolicies w) (dataRetentionPolicies w').
Proof.
  revert w. induction seed as [|v seed IH]; intros w.
  - do 2 eexists. split; [reflexivity|]. split; [reflexivity|]. intros c. auto.
  - cbn [for_of]. unfold bind at 1.
    destruct (seed_one_step v w) as (r & w1 & E & Hl & Hstep). rewrite E.
    assert (H1 : only_absent_added (v :: seed) (dataRetentionPolicies w)
                   (dataRetentionPolicies w1)).
    { intros c. destruct Hstep as [->|(Hz0 & id & ->)]; [auto|].
      rewrite rows_of_app, rows_of_policy_row.
      destruct (String.eqb_spec (InsertPolicy.dataType v) c) as [Heq|Hne]; [subst c|].
      - right. rewrite Hz0. split; [reflexivity|]. split; [reflexivity|].
        simpl. rewrite String.eqb_refl. reflexivity.
      - left. lia. }
    destruct r as [[]|e].
    2:{ do 2 eexists. split; [reflexivity|]. auto. }
    destruct (IH w1) as (r2 & w2 & E2 & Hl2 & H2). rewrite E2.
    do 2 eexists. split; [reflexivity|]. split; [congruence|].
    intros c. specialize (H1 c). specialize (H2 c).
    assert (Hs : seeded_by seed c = true -> seeded_by (v :: seed) c = true).
    { intros Hs. simpl. rewrite Hs. apply orb_true_r. }
    destruct H1 as [H1|(H1a & H1b & H1c)], H2 as [H2|(H2a & H2b & H2c)].
    + left. congruence.
    + right. rewrite <- H1. auto.
    + right. rewrite H2. auto.
    + lia.
Qed.

(** With the storage available, the loop completes and every category of
    the seeded list has a row afterwards: none is added to a category that
    had one. *)
Lemma for_of_seed_available seed w :
  available w ->
  exists w',
    for_of seed AuditService.seed_one w = (Ok tt, w')
    /\ available w'
    /\ console w' = console w
    /\ (forall c, rows_of c (dataRetentionPolicies w')
                  = if seeded_by seed c
                    then Nat.max 1 (rows_of c (dataRetentionPolicies w))
                    else rows_of c (dataRetentionPolicies w))
    /\ ((forall v, In v seed ->
           rows_of (InsertPolicy.dataType v) (dataRetentionPolicies w) <> O) ->
        dataRetentionPolicies w' = dataRetentionPolicies w).
Proof.
  revert w. induction seed as [|v seed IH]; intros w Ha.
  - exists w. split; [reflexivity|]. auto.
  - cbn [for_of]. unfold bind at 1.
    unfold AuditService.seed_one at 1, db_select_policies, db_insert_policies.
    unfold_monad.
    destruct (storage_call_available w Ha) as (w1 & E & (Hh & Hl & Hp & Hn & Hz) & C & Ha1).
    rewrite E. rewrite Hp.
    fold (rows_of (InsertPolicy.dataType v) (dataRetentionPolicies w)).
    destruct (Nat.eqb_spec (rows_of (InsertPolicy.dataType v) (dataRetentionPolicies w)) 0)
      as [Hz0|Hnz].
    + destruct (storage_call_available w1 Ha1)
        as (w2 & E2 & (Hh2 & Hl2 & Hp2 & Hn2 & Hz2) & C2 & Ha2).
      rewrite E2.
      match goal with |- context [for_of seed _ ?wm] =>
        destruct (IH wm) as (w' & E' & Ha' & C' & Hrows & Hnoop); [exact Ha2|]
      end.
      exists w'. split; [exact E'|]. split; [exact Ha'|].
      split; [rewrite C'; simpl; congruence|]. split.
      * intros c. rewrite Hrows. simpl dataRetentionPolicies.
        rewrite Hp2, Hp. fold (policy_row (nextId w2) v).
        rewrite rows_of_app, rows_of_policy_row. simpl seeded_by.
        destruct (String.eqb_spec (InsertPolicy.dataType v) c) as [Heq|Hne]; simpl.
        -- subst c. rewrite Hz0.
           destruct (seeded_by seed (InsertPolicy.dataType v)); reflexivity.
        -- rewrite Nat.add_0_r. reflexivity.
      * intros Hall. exfalso. apply (Hall v); [left; reflexivity|exact Hz0].
    + destruct (IH w1 Ha1) as (w' & E' & Ha' & C' & Hrows & Hnoop).
      exists w'. split; [exact E'|]. split; [exact Ha'|]. split; [congruence|]. split.
      * intros c. rewrite Hrows, Hp. simpl seeded_by.
        destruct (String.eqb_spec (InsertPolicy.dataType v) c) as [Heq|Hne]; simpl; [|reflexivity].
        subst c. destruct (seeded_by seed (InsertPolicy.dataType v)); lia.
      * intros Hall. rewrite Hnoop, Hp; [reflexivity|].
        intros v' Hv'. rewrite Hp. apply Hall. right. exact Hv'.
Qed.
Lemma seeded_by_In seed v : In v seed -> seeded_by seed (InsertPolicy.dataType v) = true.
Proof.
  intros H. unfold seeded_by. apply existsb_exists. exists v.
  split; [exact H|apply String.eqb_refl].
Qed.

(** C8 (amended). Seeding only inserts: whatever the storage does, a call
    returns normally and adds at most one row, and only for a seeded category
    that had none.  With the storage available, two calls in a row leave
    each seeded category with [max 1 n] rows, [n] being the number of rows it
    had at the start, hence exactly one row when the store held no
    duplicates of it; the second call inserts nothing. *)
Theorem initializeDefaultPolicies_idempotent (w : World) :
  (exists w',
      AuditService.initializeDefaultPolicies w = (Ok tt, w')
      /\ only_absent_added AuditService.defaultPolicies
           (dataRetentionPolicies w) (dataRetentionPolicies w'))
  /\ (available w ->
      let w1 := snd (AuditService.initializeDefaultPolicies w) in
      let w2 := snd (AuditService.initializeDefaultPolicies w1) in
      dataRetentionPolicies w2 = dataRetentionPolicies w1
      /\ (forall c, rows_of c (dataRetentionPolicies w2)
                    = if seeded c
                      then Nat.max 1 (rows_of c (dataRetentionPolicies w))
                      else rows_of c (dataRetentionPolicies w))
      /\ ((forall c, seeded c = true -> (rows_of c (dataRetentionPolicies w) <= 1)%nat) ->
          forall c, seeded c = true -> rows_of c (dataRetentionPolicies w2) = 1%nat)).
Proof.
  split.
  - unfold AuditService.initializeDefaultPolicies, try_catch.
    destruct (for_of_seed_step AuditService.defaultPolicies w) as (r & w' & E & _ & H).
    rewrite E. destruct r as [[]|e].
    + exists w'. auto.
    + unfold console_error, modify. eexists. split; [reflexivity|]. exact H.
  - intros Ha w1 w2.
    assert (Hrun : forall w0, available w0 ->
              exists w', AuditService.initializeDefaultPolicies w0 = (Ok tt, w')
                /\ available w'
                /\ (forall c, rows_of c (dataRetentionPolicies w')
                      = if seeded c
                        then Nat.max 1 (rows_of c (dataRetentionPolicies w0))
                        else rows_of c (dataRetentionPolicies w0))
                /\ ((forall v, In v AuditService.defaultPolicies ->
                       rows_of (InsertPolicy.dataType v) (dataRetentionPolicies w0) <> O) ->
                    dataRetentionPolicies w' = dataRetentionPolicies w0)).
    { intros w0 Ha0. unfold AuditService.initializeDefaultPolicies, try_catch.
      destruct (for_of_seed_available AuditService.defaultPolicies w0 Ha0)
        as (w' & E & Ha' & _ & Hrows & Hnoop).
      rewrite E. exists w'. auto. }
    destruct (Hrun w Ha) as (w1' & E1 & Ha1 & Hrows1 & _).
    assert (w1 = w1') by (unfold w1; rewrite E1; reflexivity). subst w1'.
    destruct (Hrun w1 Ha1) as (w2' & E2 & Ha2 & Hrows2 & Hnoop2).
    assert (w2 = w2') by (unfold w2; rewrite E2; reflexivity). subst w2'.
    assert (Hsame : dataRetentionPolicies w2 = dataRetentionPolicies w1).
    { apply Hnoop2. intros v Hv. rewrite Hrows1.
      unfold seeded. rewrite (seeded_by_In _ _ Hv). lia. }
    split; [exact Hsame|]. split.
    + intros c. rewrite Hsame. apply Hrows1.
    + intros Hle c Hc. rewrite Hsame, Hrows1, Hc. specialize (Hle c Hc). lia.
Qed.

(** The theorem applied to the empty store: one row per seeded category
    after two calls. *)
Lemma initializeDefaultPolicies_idempotent_witness :
  available empty_world
  /\ forall c, seeded c = true ->
       rows_of c (dataRetentionPolicies
                    (snd (AuditService.initializeDefaultPolicies
                            (snd (AuditService.initializeDefaultPolicies empty_world)))))
       = 1%nat.
Proof.
  assert (Ha : available empty_world) by constructor.
  split; [exact Ha|].
  destruct (initializeDefaultPolicies_idempotent empty_world) as [_ H].
  destruct (H Ha) as (_ & _ & H1).
  apply H1. intros c _. apply Nat.le_0_l.
Defined.

(** C8 as stated fails for a store that already holds two rows of a seeded
    category: seeding never deletes, so both rows are still there after two
    calls. *)
Lemma initializeDefaultPolicies_keeps_duplicates :
  seeded "call_logs" = true
  /\ rows_of "call_logs"
       (dataRetentionPolicies
          (snd (AuditService.initializeDefaultPolicies
                  (snd (AuditService.initializeDefaultPolicies duplicated_world)))))
     = 2%nat.
Proof. vm_compute. split; reflexivity. Qed.

(** *** Redaction *)

Lemma insert_alloc (h : Heap) (o o' : Obj) :
  <[List.length h := o']> (h ++ [o]) = h ++ [o'].
Proof.
  rewrite insert_app_r_alt by lia.
  replace (List.length h - List.length h)%nat with O by lia. reflexivity.
Qed.

Lemma redact_field_props (h : Heap) ps field :
  AuditService.redact_field (List.length h) field (h ++ [Plain ps])
  = match redact_props field ps with
    | Ok ps' => (Ok tt, h ++ [Plain ps'])
    | Throw e => (Throw e, h ++ [Plain ps])
    end.
Proof.
  unfold AuditService.redact_field, redact_props, get_prop, set_prop. unfold_monad.
  rewrite get_obj_alloc. cbn [own_props].
  destruct (truthy (lookup_prop field ps)); [|reflexivity].
  destruct (field =? "phone")%string.
  { destruct (call_replace _ _ _); [|reflexivity].
    rewrite get_obj_alloc, insert_alloc. reflexivity. }
  destruct (field =? "email")%string.
  { destruct (call_replace _ _ _); [|reflexivity].
    rewrite get_obj_alloc, insert_alloc. reflexivity. }
  rewrite get_obj_alloc, insert_alloc. reflexivity.
Qed.

Lemma for_of_redact_props (h : Heap) fields ps :
  exists ps',
    for_of fields (AuditService.redact_field (List.length h)) (h ++ [Plain ps])
    = (match redact_all fields ps with Ok _ => Ok tt | Throw e => Throw e end,
       h ++ [Plain ps'])
    /\ (forall ps'', redact_all fields ps = Ok ps'' -> ps' = ps'').
Proof.
  revert ps. induction fields as [|f fields IH]; intros ps.
  - exists ps. split; [reflexivity|]. intros ps'' H. inversion H. reflexivity.
  - cbn [for_of redact_all]. unfold bind. rewrite redact_field_props.
    destruct (redact_props f ps) as [ps1|e].
    + destruct (IH ps1) as (ps' & E & H). exists ps'. split; [exact E|exact H].
    + exists ps. split; [reflexivity|]. intros ps'' H. discriminate H.
Qed.

(** [redactPII] on a reference: the copy is the only object touched. *)
Lemma redactPII_ref (h : Heap) a fields :
  exists ps',
    AuditService.redactPII (VRef a) fields h
    = (match redact_all (default AuditService.default_fieldsToRedact fields)
               (own_props (get_obj h a)) with
       | Ok _ => Ok (VRef (List.length h))
       | Throw e => Throw e
       end, h ++ [Plain ps'])
    /\ (forall ps'',
          redact_all (default AuditService.default_fieldsToRedact fields)
            (own_props (get_obj h a)) = Ok ps'' -> ps' = ps'').
Proof.
  unfold AuditService.redactPII.
  replace (negb (truthy (VRef a)) || negb (typeof (VRef a) =? "object")%string)
    with false by reflexivity.
  unfold bind at 1. unfold spread_copy, alloc.
  destruct (for_of_redact_props h (default AuditService.default_fieldsToRedact fields)
              (own_props (get_obj h a))) as (ps' & E & H).
  exists ps'. split; [|exact H].
  unfold bind. rewrite E.
  destruct (redact_all _ _); reflexivity.
Qed.

Lemma lookup_assign_prop k f v ps :
  lookup_prop k (assign_prop f v ps)
  = if (f =? k)%string then v else lookup_prop k ps.
Proof.
  induction ps as [|[k' v'] ps IH]; simpl.
  - destruct (f =? k)%string; reflexivity.
  - destruct (String.eqb_spec k' f) as [->|Hne]; simpl.
    + destruct (String.eqb_spec f k); reflexivity.
    + rewrite IH. destruct (String.eqb_spec k' k) as [->|Hne'].
      * destruct (String.eqb_spec f k); [congruence|reflexivity].
      * reflexivity.
Qed.

Lemma call_replace_string v r t :
  truthy v = true ->
  (exists s, v = VStr s /\ call_replace v r t = Ok (VStr (String_replace s r t)))
  \/ (absent_falsy_or_string v = false /\ call_replace v r t = Throw not_a_function).
Proof.
  intros Ht. unfold absent_falsy_or_string. rewrite Ht.
  destruct v; simpl; eauto.
Qed.

Lemma redact_props_cases field ps :
  (breaks_redaction ps field = true /\ redact_props field ps = Throw not_a_function)
  \/ (breaks_redaction ps field = false
      /\ exists ps', redact_props field ps = Ok ps'
           /\ forall k, uses_replace k = true ->
                absent_falsy_or_string (lookup_prop k ps')
                = absent_falsy_or_string (lookup_prop k ps)).
Proof.
  unfold redact_props, breaks_redaction, uses_replace.
  destruct (truthy (lookup_prop field ps)) eqn:Ht.
  2:{ right. unfold absent_falsy_or_string. rewrite Ht. simpl.
      rewrite andb_false_r. split; [reflexivity|]. exists ps. auto. }
  assert (Hrisky : forall r t,
    (field =? "phone")%string || (field =? "email")%string = true ->
    (absent_falsy_or_string (lookup_prop field ps) = false
     /\ call_replace (lookup_prop field ps) r t = Throw not_a_function)
    \/ (absent_falsy_or_string (lookup_prop field ps) = true
        /\ exists v', call_replace (lookup_prop field ps) r t = Ok v'
             /\ forall k, (k =? "phone")%string || (k =? "email")%string = true ->
                  absent_falsy_or_string (lookup_prop k (assign_prop field v' ps))
                  = absent_falsy_or_string (lookup_prop k ps))).
  { intros r t Hf.
    destruct (call_replace_string _ r t Ht) as [(s & Hs & Hc)|[Hb Hc]]; [right|left; auto].
    split; [rewrite Hs; apply orb_true_r|]. eexists. split; [exact Hc|].
    intros k Hk. rewrite lookup_assign_prop.
    destruct (String.eqb_spec field k) as [<-|Hne]; [|reflexivity].
    rewrite Hs. unfold absent_falsy_or_string. rewrite !orb_true_r. reflexivity. }
  destruct (field =? "phone")%string eqn:Ep.
  { destruct (Hrisky phone_regex "$1$2***" eq_refl) as [[Hb Hc]|(Hg & v' & Hc & Hk)];
      rewrite Hc.
    - left. rewrite Hb. auto.
    - right. rewrite Hg. split; [reflexivity|]. eauto. }
  destruct (field =? "email")%string eqn:Ee.
  { destruct (Hrisky email_regex "$1***$3" eq_refl) as [[Hb Hc]|(Hg & v' & Hc & Hk)];
      rewrite Hc.
    - left. rewrite Hb. auto.
    - right. rewrite Hg. split; [reflexivity|]. eauto. }
  right. split; [reflexivity|]. eexists. split; [reflexivity|].
  intros k Hk. rewrite lookup_assign_prop.
  destruct (String.eqb_spec field k) as [<-|Hne]; [|reflexivity].
  rewrite Ep, Ee in Hk. discriminate Hk.
Qed.

Lemma redact_all_cases fields ps :
  if existsb (breaks_redaction ps) fields
  then redact_all fields ps = Throw not_a_function
  else exists ps', redact_all fields ps = Ok ps'.
Proof.
  revert ps. induction fields as [|f fields IH]; intros ps; cbn [existsb redact_all].
  - eexists. reflexivity.
  - destruct (redact_props_cases f ps) as [[Hb Hr]|(Hb & ps' & Hr & Hk)];
      rewrite Hb, Hr; cbn [orb]; [reflexivity|].
    specialize (IH ps').
    replace (existsb (breaks_redaction ps') fields)
      with (existsb (breaks_redaction ps) fields) in IH; [exact IH|].
    clear IH. induction fields as [|g fields IHf]; [reflexivity|].
    cbn [existsb]. rewrite IHf. f_equal.
    unfold breaks_redaction. destruct (uses_replace g) eqn:Eg; [|reflexivity].
    rewrite (Hk g Eg). reflexivity.
Qed.
(** C9. [redactPII] does not mutate: every object of the heap is the same
    after the call, the result of a call on an object is a fresh copy.  On
    the record of the specification the copy has the phone masked after
    "+447700", the email "j***@x.com" and the name "***REDACTED***".  A
    value that is not an object, such as [null] or 42, is returned as it
    is and the heap is untouched. *)
Theorem redactPII_pure_shallow_copy :
  (forall data fields (h : Heap),
      exists r extra,
        AuditService.redactPII data fields h = (r, h ++ extra)
        /\ forall a o, h !! a = Some o -> (h ++ extra) !! a = Some o)
  /\ (forall (h : Heap) (a : nat),
        h !! a = Some (Plain example_record) ->
        AuditService.redactPII (VRef a) None h
        = (Ok (VRef (List.length h)), h ++ [Plain example_redacted])
        /\ a <> List.length h
        /\ (h ++ [Plain example_redacted]) !! a = Some (Plain example_record))
  /\ (forall (h : Heap) fields,
        AuditService.redactPII VNull fields h = (Ok VNull, h)
        /\ AuditService.redactPII (VNum 42) fields h = (Ok (VNum 42), h))
  /\ (forall (h : Heap) fields v,
        (forall a, v <> VRef a) -> AuditService.redactPII v fields h = (Ok v, h)).
Proof.
  assert (Hprim : forall (h : Heap) fields v,
            (forall a, v <> VRef a) -> AuditService.redactPII v fields h = (Ok v, h)).
  { intros h fields v Hv. unfold AuditService.redactPII.
    destruct v as [| |b|n|n|s|a]; try reflexivity.
    - destruct (truthy (VBool b)); reflexivity.
    - destruct (truthy (VNum n)); reflexivity.
    - destruct (truthy (VBigInt n)); reflexivity.
    - destruct (truthy (VStr s)); reflexivity.
    - exfalso. apply (Hv a). reflexivity. }
  split; [|split; [|split]].
  - intros data fields h.
    destruct data as [| |b|n|n|s|a];
      try (exists (Ok (VUndefined)), []; rewrite app_nil_r; split;
           [apply Hprim; intros a'; discriminate|auto]; fail);
      try (eexists _, []; rewrite app_nil_r; split;
           [apply Hprim; intros a'; discriminate|auto]; fail).
    destruct (redactPII_ref h a fields) as (ps' & E & _).
    eexists _, [Plain ps']. split; [exact E|].
    intros a' o Ho. apply lookup_app_l_Some. exact Ho.
  - intros h a Ha.
    destruct (redactPII_ref h a None) as (ps' & E & H).
    unfold get_obj in E, H. rewrite Ha in E, H.
    change (default AuditService.default_fieldsToRedact None)
      with AuditService.default_fieldsToRedact in E, H.
    change (own_props (default (Plain []) (Some (Plain example_record))))
      with example_record in E, H.
    assert (Hall : redact_all AuditService.default_fieldsToRedact example_record
                   = Ok example_redacted) by (vm_compute; reflexivity).
    rewrite Hall in E. rewrite (H _ Hall) in E.
    split; [exact E|].
    pose proof (lookup_lt_Some _ _ _ Ha) as Hlt.
    split; [lia|]. apply lookup_app_l_Some. exact Ha.
  - intros h fields. split; apply Hprim; intros a; discriminate.
  - exact Hprim.
Qed.

(** The theorem applied to a heap that holds only the record. *)
Lemma redactPII_pure_shallow_copy_witness :
  AuditService.redactPII (VRef 0) None [Plain example_record]
  = (Ok (VRef 1), [Plain example_record; Plain example_redacted]).
Proof.
  destruct redactPII_pure_shallow_copy as (_ & H & _).
  destruct (H [Plain example_record] O eq_refl) as (E & _).
  exact E.
Defined.

(** C10. On an object, [redactPII] throws exactly when a listed "phone" or
    "email" field holds a truthy value that is not a string, and the thrown
    value is then the [TypeError] of calling [replace] on it; in particular
    it returns normally when every listed field is absent, falsy or a
    string. *)
Theorem redactPII_throws_on_truthy_non_string (h : Heap) (a : nat)
    (fields : option (list string)) :
  let ps := own_props (get_obj h a) in
  let fs := default AuditService.default_fieldsToRedact fields in
  fst (AuditService.redactPII (VRef a) fields h)
  = (if existsb (breaks_redaction ps) fs
     then Throw not_a_function
     else Ok (VRef (List.length h)))
  /\ ((forall f, In f fs -> absent_falsy_or_string (lookup_prop f ps) = true) ->
      fst (AuditService.redactPII (VRef a) fields h) = Ok (VRef (List.length h)))
  /\ (forall f, In f fs -> uses_replace f = true ->
        absent_falsy_or_string (lookup_prop f ps) = false ->
        fst (AuditService.redactPII (VRef a) fields h) = Throw not_a_function).
Proof.
  intros ps fs.
  assert (Heq : fst (AuditService.redactPII (VRef a) fields h)
                = (if existsb (breaks_redaction ps) fs
                   then Throw not_a_function
                   else Ok (VRef (List.length h)))).
  { destruct (redactPII_ref h a fields) as (ps' & E & _). rewrite E. cbn [fst].
    fold ps. fold fs.
    pose proof (redact_all_cases fs ps) as Hc.
    destruct (existsb (breaks_redaction ps) fs).
    - rewrite Hc. reflexivity.
    - destruct Hc as (ps'' & ->). reflexivity. }
  split; [exact Heq|]. split.
  - intros Hall. rewrite Heq.
    destruct (existsb (breaks_redaction ps) fs) eqn:Ex; [|reflexivity].
    apply existsb_exists in Ex. destruct Ex as (f & Hin & Hb).
    unfold breaks_redaction in Hb. rewrite (Hall f Hin) in Hb.
    rewrite andb_false_r in Hb. discriminate Hb.
  - intros f Hin Hu Hbad. rewrite Heq.
    replace (existsb (breaks_redaction ps) fs) with true; [reflexivity|].
    symmetry. apply existsb_exists. exists f. split; [exact Hin|].
    unfold breaks_redaction. rewrite Hu, Hbad. reflexivity.
Qed.

(** The theorem applied to a record whose phone is a number. *)
Lemma redactPII_throws_on_truthy_non_string_witness :
  fst (AuditService.redactPII (VRef 0) None [Plain [("phone", VNum 5551234)]])
  = Throw not_a_function.
Proof.
  destruct (redactPII_throws_on_truthy_non_string [Plain [("phone", VNum 5551234)]] O None)
    as (_ & _ & H).
  apply (H "phone"); [left; reflexivity|reflexivity|reflexivity].
Defined.

(** X9. The phone rule leaves every value without a plus sign exactly as it
    is: the pattern cannot match, and [replace] without a match returns its
    input. *)
Lemma phone_rule_without_plus (s : string) :
  (forall c, In c (list_ascii_of_string s) -> c <> "+"%char) ->
  String_replace s phone_regex "$1$2***" = s.
Proof.
  intros Hs. unfold String_replace.
  assert (H : forall cs pre, (forall c, In c cs -> c <> "+"%char) ->
                             regex_exec phone_regex pre cs = None).
  { induction cs as [|c cs IH]; intros pre Hcs.
    - reflexivity.
    - cbn [regex_exec]. 
      assert (Hm : forall k, rmatch phone_regex (c :: cs) [] k = None).
      { intros k. unfold phone_regex. cbn [rmatch].
        rewrite (proj2 (Ascii.eqb_neq c "+")); [reflexivity|].
        apply Hcs. left. reflexivity. }
      rewrite Hm. apply IH. intros c' Hc'. apply Hcs. right. exact Hc'. }
  rewrite H; [reflexivity|exact Hs].
Qed.

(** The theorem applied to a national number. *)
Lemma phone_rule_without_plus_witness :
  String_replace "07700 900123" phone_regex "$1$2***" = "07700 900123".
Proof.
  apply phone_rule_without_plus.
  intros c Hc Heq. subst c. simpl in Hc.
  repeat (destruct Hc as [Hc|Hc]; [discriminate Hc|]). exact Hc.
Defined.

(** C6 does not hold of the code: a phone value that does not have the
    expected shape (here a national number without a plus sign) is not
    masked at all, the copy carries it unchanged. *)
Theorem redactPII_unmatched_phone_unmasked :
  AuditService.redactPII (VRef 0) None [Plain [("phone", VStr "07700 900123")]]
  = (Ok (VRef 1),
     [Plain [("phone", VStr "07700 900123")]; Plain [("phone", VStr "07700 900123")]]).
Proof. vm_compute. reflexivity. Qed.

(** *** The phone rule on a number in international format *)

Lemma rep_digits_bounded fuel mn (ds rest : list ascii) caps k r :
  all_digits ds ->
  (mn <= List.length ds)%nat ->
  (List.length ds < fuel)%nat ->
  k rest caps = Some r ->
  rep_match (rmatch RDigit) true fuel mn (Some (List.length ds)) (ds ++ rest) caps k = Some r.
Proof.
  intros Hd. revert fuel mn. induction Hd as [|d ds Hdig Hds IH]; intros fuel mn Hmn Hf Hk.
  - destruct fuel as [|fuel]; [simpl in Hf; lia|].
    destruct mn as [|mn]; [|simpl in Hmn; lia]. simpl. exact Hk.
  - destruct fuel as [|fuel]; [simpl in Hf; lia|].
    cbn [List.length] in *. cbn [rep_match app max_pred Nat.pred max_is_zero].
    destruct mn as [|mn].
    + cbn [rmatch]. rewrite Hdig.
      replace (List.length (ds ++ rest) <? List.length (d :: ds ++ rest))%nat with true
        by (symmetry; apply Nat.ltb_lt; simpl; lia).
      rewrite IH by (try lia; exact Hk). reflexivity.
    + cbn [rmatch]. rewrite Hdig. apply IH; try lia. exact Hk.
Qed.

Lemma rep_digits_greedy fuel mn (ds tl : list ascii) caps k r :
  all_digits ds ->
  no_digit_ahead tl ->
  (mn <= List.length ds)%nat ->
  (List.length ds < fuel)%nat ->
  k tl caps = Some r ->
  rep_match (rmatch RDigit) true fuel mn None (ds ++ tl) caps k = Some r.
Proof.
  intros Hd Htl. revert fuel mn. induction Hd as [|d ds Hdig Hds IH]; intros fuel mn Hmn Hf Hk.
  - destruct fuel as [|fuel]; [simpl in Hf; lia|].
    destruct mn as [|mn]; [|simpl in Hmn; lia].
    cbn [rep_match app max_is_zero rmatch].
    destruct tl as [|c tl]; [simpl; exact Hk|].
    simpl in Htl. rewrite Htl. simpl. exact Hk.
  - destruct fuel as [|fuel]; [simpl in Hf; lia|].
    cbn [List.length] in *. cbn [rep_match app max_pred max_is_zero].
    destruct mn as [|mn].
    + cbn [rmatch]. rewrite Hdig.
      replace (List.length (ds ++ tl) <? List.length (d :: ds ++ tl))%nat with true
        by (symmetry; apply Nat.ltb_lt; simpl; lia).
      rewrite IH by (try lia; exact Hk). reflexivity.
    + cbn [rmatch]. rewrite Hdig. apply IH; try lia. exact Hk.
Qed.
Lemma take_consumed {A} (p q : list A) :
  take (List.length (p ++ q) - List.length q) (p ++ q) = p.
Proof.
  rewrite length_app.
  replace (List.length p + List.length q - List.length q)%nat with (List.length p) by lia.
  apply take_app_length.
Qed.

Lemma phone_regex_match (a b c d e f : ascii) (ds tl : list ascii) :
  all_digits (a :: b :: c :: d :: e :: f :: ds) ->
  ds <> [] ->
  no_digit_ahead tl ->
  exists caps,
    rmatch phone_regex ("+"%char :: a :: b :: c :: d :: e :: f :: ds ++ tl) []
      (fun rest caps => Some (rest, caps)) = Some (tl, caps)
    /\ get_cap 1 caps = ["+"%char; a; b; c]
    /\ get_cap 2 caps = [d; e; f].
Proof.
  intros Hd Hne Htl.
  inversion Hd as [|? ? Ha Hd1]; subst. inversion Hd1 as [|? ? Hb Hd2]; subst.
  inversion Hd2 as [|? ? Hc Hd3]; subst. inversion Hd3 as [|? ? Hd' Hd4]; subst.
  inversion Hd4 as [|? ? He Hd5]; subst. inversion Hd5 as [|? ? Hf Hds]; subst.
  eexists. split.
  - unfold phone_regex. cbn [rmatch]. cbn [Ascii.eqb Bool.eqb]. cbv beta.
    apply (rep_digits_bounded _ 1 [a; b; c] (d :: e :: f :: ds ++ tl)).
    + repeat constructor; assumption.
    + simpl; lia.
    + simpl; lia.
    + cbv beta.
      apply (rep_digits_bounded _ 3 [d; e; f] (ds ++ tl)).
      * repeat constructor; assumption.
      * simpl; lia.
      * simpl; lia.
      * cbv beta.
        apply (rep_digits_greedy _ 1 ds tl).
        -- exact Hds.
        -- exact Htl.
        -- destruct ds; [congruence|simpl; lia].
        -- rewrite length_app. lia.
        -- reflexivity.
  - split.
    + cbn [get_cap Nat.eqb].
      change ("+"%char :: a :: b :: c :: d :: e :: f :: ds ++ tl)
        with (["+"%char; a; b; c] ++ (d :: e :: f :: ds ++ tl)).
      apply take_consumed.
    + cbn [get_cap Nat.eqb].
      change (d :: e :: f :: ds ++ tl) with ([d; e; f] ++ (ds ++ tl)).
      apply take_consumed.
Qed.

(** X8. On a value that starts with a plus sign and at least seven digits
    the phone rule keeps the plus sign and six digits and replaces all the
    digits that follow by the mask; text after the digits is kept. *)
Lemma phone_rule_international (a b c d e f : ascii) (ds tl : list ascii) :
  all_digits (a :: b :: c :: d :: e :: f :: ds) ->
  ds <> [] ->
  no_digit_ahead tl ->
  String_replace
    (string_of_list_ascii ("+"%char :: a :: b :: c :: d :: e :: f :: ds ++ tl))
    phone_regex "$1$2***"
  = string_of_list_ascii
      ("+"%char :: a :: b :: c :: d :: e :: f :: list_ascii_of_string "***" ++ tl).
Proof.
  intros Hd Hne Htl.
  destruct (phone_regex_match a b c d e f ds tl Hd Hne Htl) as (caps & Hm & H1 & H2).
  unfold String_replace. rewrite list_ascii_of_string_of_list_ascii.
  cbn [regex_exec]. rewrite Hm. cbn [m_before m_matched m_caps m_after rev app].
  f_equal.
  change (list_ascii_of_string "$1$2***")
    with ["$"%char; "1"%char; "$"%char; "2"%char; "*"%char; "*"%char; "*"%char].
  change (group_count phone_regex) with 3%nat.
  cbn [GetSubstitution].
  change (Ascii.eqb "$" "$") with true. change (Ascii.eqb "1" "$") with false.
  change (Ascii.eqb "1" "&") with false. change (Ascii.eqb "2" "$") with false.
  change (Ascii.eqb "2" "&") with false. change (Ascii.eqb "*" "$") with false.
  cbv iota.
  change (is_digit "1" && (1 <=? nat_of_ascii "1" - 48)%nat
          && (nat_of_ascii "1" - 48 <=? 3)%nat) with true.
  change (is_digit "2" && (1 <=? nat_of_ascii "2" - 48)%nat
          && (nat_of_ascii "2" - 48 <=? 3)%nat) with true.
  cbv iota.
  change (nat_of_ascii "1" - 48)%nat with 1%nat.
  change (nat_of_ascii "2" - 48)%nat with 2%nat.
  rewrite H1, H2. reflexivity.
Qed.

(** The theorem applied to the number of the specification. *)
Lemma phone_rule_international_witness :
  String_replace "+447700900123" phone_regex "$1$2***" = "+447700***".
Proof.
  apply (phone_rule_international "4" "4" "7" "7" "0" "0"
           (list_ascii_of_string "900123") []).
  - repeat constructor.
  - intros H. discriminate H.
  - exact I.
Defined.

Lemma getAuditTrail_sorted_prefix entityType entityId limit w :
  exists res,
    fst (AuditService.getAuditTrail entityType entityId limit w) = Ok res
    /\ match fst (storage_call w) with
       | Ok _ =>
           res = take (default 100%nat limit)
                   (order_by_timestamp
                      (List.filter (trail_match entityType entityId) (auditLogs w)))
       | Throw _ => res = []
       end.
Proof.
  unfold AuditService.getAuditTrail, db_select_auditLogs. unfold_monad.
  fold (trail_match entityType entityId).
  destruct (storage_call_cases w)
    as [(w1 & E & (Hh & Hl & _) & _)|(e & w1 & E & _)]; rewrite E; cbn [fst].
  - eexists. split; [reflexivity|]. rewrite Hl. reflexivity.
  - unfold console_error, modify. eexists. split; reflexivity.
Qed.

(** *** Further properties of the recorder and the reader *)

(** X1. [logAction] adds a row exactly when the details can be serialized
    (or are falsy), the resolved retention date can be stored and the
    storage accepts the insert; in every other case the table is left as it
    was. *)
Theorem logAction_persists_iff (params : Params.t) (w : World) :
  ((exists row, auditLogs (snd (AuditService.logAction params w)) = auditLogs w ++ [row])
   <-> ((truthy (Params.details params) = true ->
         exists s, JSON_stringify (heap w) (Params.details params) = Ok s)
        /\ write_accepted (Params.entityType params) w))
  /\ ((forall row, auditLogs (snd (AuditService.logAction params w)) <> auditLogs w ++ [row]) ->
      auditLogs (snd (AuditService.logAction params w)) = auditLogs w).
Proof.
  split; [apply logAction_written_iff|].
  intros Hno.
  destruct (logAction_effect params w)
    as (w' & lines & E & _ & _ & _ & [[Hs _]|(details & rd & id & ts & Happ & _)]);
    rewrite E in *; cbn [snd] in *; [exact Hs|].
  exfalso. exact (Hno _ Happ).
Qed.

(** The theorem applied to a booking logged on an empty store with the
    storage working. *)
Lemma logAction_persists_iff_witness :
  exists row,
    auditLogs (snd (AuditService.logAction (booking_params VUndefined) empty_world))
    = auditLogs empty_world ++ [row].
Proof.
  destruct (logAction_persists_iff (booking_params VUndefined) empty_world) as [[_ H] _].
  apply H. split.
  - intros Hf. discriminate Hf.
  - split; [vm_compute; intros Hd; discriminate Hd|reflexivity].
Defined.



(** X3. An action logged for an entity shows up in the trail of that entity:
    when [logAction] with an entity id has written its row, the next
    [getAuditTrail] for the same entity type and id returns it, provided the
    query is accepted and the limit does not cut the matching rows. *)
Theorem logged_action_is_in_trail (params : Params.t) (w : World) (row : AuditLog.t)
    (id : string) (limit : option nat) :
  let w1 := snd (AuditService.logAction params w) in
  Params.entityId params = Some id ->
  auditLogs w1 = auditLogs w ++ [row] ->
  fst (storage_call w1) = Ok tt ->
  (List.length (List.filter (trail_match (Params.entityType params) id) (auditLogs w1))
   <= default 100 limit)%nat ->
  exists res,
    fst (AuditService.getAuditTrail (Params.entityType params) id limit w1) = Ok res
    /\ In row res.
Proof.
  intros w1 Hid Hrow Hst Hlim.
  assert (Hf : AuditLog.entityId row = Params.entityId params
               /\ AuditLog.entityType row = Params.entityType params).
  { destruct (logAction_effect params w)
      as (w' & lines & E & _ & _ & _ & [[Hs _]|(details & rd & i & ts & Happ & _)]);
      unfold w1 in Hrow; rewrite E in Hrow; cbn [snd] in Hrow.
    - rewrite Hs in Hrow. exfalso. exact (app_one_neq _ _ Hrow).
    - rewrite Happ in Hrow. apply app_inv_head in Hrow. inversion Hrow; subst row.
      split; reflexivity. }
  destruct Hf as [Heid Het].
  destruct (getAuditTrail_sorted_prefix (Params.entityType params) id limit w1)
    as (res & E & H).
  exists res. split; [exact E|].
  rewrite Hst in H. subst res.
  rewrite take_ge.
  - eapply Permutation_in; [apply Permutation_sym, order_by_timestamp_perm|].
    apply filter_In. split.
    + rewrite Hrow. apply in_or_app. right. left. reflexivity.
    + unfold trail_match, sql_eq_string. rewrite Heid, Hid, Het, !String.eqb_refl.
      reflexivity.
  - rewrite (Permutation_length (order_by_timestamp_perm _)). exact Hlim.
Qed.

(** The theorem applied to a booking for appointment A1 on an empty store. *)
Lemma logged_action_is_in_trail_witness :
  exists res,
    fst (AuditService.getAuditTrail "appointments" "A1" None
           (snd (AuditService.logAction (booking_params VUndefined) empty_world))) = Ok res
    /\ In (logged_row (booking_params VUndefined) None (Some (t2024 + 2557 * msPerDay))
             1 t2024) res.
Proof.
  apply (logged_action_is_in_trail (booking_params VUndefined) empty_world _ "A1" None).
  - reflexivity.
  - vm_compute. reflexivity.
  - reflexivity.
  - vm_compute. repeat constructor.
Defined.

(** *** Further properties of the sweep and of the seeding *)

(** X4. Whatever the storage does, the sweep never removes a row that has not
    expired: a row without retention date, or with a retention date at or
    after the time of the sweep, is still in the table afterwards. *)
Theorem cleanupExpiredLogs_keeps_unexpired (w : World) (r : AuditLog.t) :
  In r (auditLogs w) ->
  (forall d, AuditLog.retentionDate r = Some d -> clock w <= d) ->
  In r (auditLogs (snd (AuditService.cleanupExpiredLogs w))).
Proof.
  intros Hin Hd.
  destruct (cleanup_effect w) as (n & w' & lines & extra & Ec & _ & _ & H).
  rewrite Ec. cbn [snd].
  destruct (fst (storage_call w)) as [u|e]; destruct H as (_ & Hl & _); rewrite Hl;
    apply in_or_app; left; [|exact Hin].
  apply filter_In. split; [exact Hin|].
  unfold expired. destruct (AuditLog.retentionDate r) as [d|]; [|reflexivity].
  specialize (Hd d eq_refl). apply negb_true_iff. apply Z.ltb_ge. exact Hd.
Qed.

(** The theorem applied to the row of the example store that expires one
    day ahead. *)
Lemma cleanupExpiredLogs_keeps_unexpired_witness :
  In (example_row 2 (Some (t2024 + msPerDay)))
    (auditLogs (snd (AuditService.cleanupExpiredLogs sweep_world))).
Proof.
  apply cleanupExpiredLogs_keeps_unexpired.
  - right. left. reflexivity.
  - intros d Hd. inversion Hd. vm_compute. intros Hc. discriminate Hc.
Defined.

Lemma for_of_seed_appends seed w :
  exists r w' added,
    for_of seed AuditService.seed_one w = (r, w')
    /\ dataRetentionPolicies w' = dataRetentionPolicies w ++ added
    /\ Forall (fun p => exists id v, In v seed /\ p = policy_row id v) added.
Proof.
  revert w. induction seed as [|v seed IH]; intros w.
  - exists (Ok tt), w, []. rewrite app_nil_r. repeat split. constructor.
  - cbn [for_of]. unfold bind at 1.
    destruct (seed_one_step v w) as (r & w1 & E & _ & Hstep). rewrite E.
    assert (H1 : exists added1,
              dataRetentionPolicies w1 = dataRetentionPolicies w ++ added1
              /\ Forall (fun p => exists id v', In v' (v :: seed) /\ p = policy_row id v')
                   added1).
    { destruct Hstep as [Hs|(_ & id & Hs)].
      - exists []. rewrite app_nil_r. split; [exact Hs|constructor].
      - exists [policy_row id v]. split; [exact Hs|].
        constructor; [|constructor]. exists id, v. split; [left; reflexivity|reflexivity]. }
    destruct H1 as (added1 & Hp1 & Hf1).
    destruct r as [[]|e].
    2:{ exists (Throw e), w1, added1. auto. }
    destruct (IH w1) as (r2 & w2 & added2 & E2 & Hp2 & Hf2). rewrite E2.
    exists r2, w2, (added1 ++ added2). split; [reflexivity|].
    split; [rewrite Hp2, Hp1, app_assoc; reflexivity|].
    apply Forall_app. split; [exact Hf1|].
    eapply List.Forall_impl; [|exact Hf2].
    intros p (id & v' & Hin & Hp). exists id, v'. split; [right; exact Hin|exact Hp].
Qed.

Lemma seeding_result (w : World) :
  exists w' added,
    AuditService.initializeDefaultPolicies w = (Ok tt, w')
    /\ dataRetentionPolicies w' = dataRetentionPolicies w ++ added
    /\ auditLogs w' = auditLogs w
    /\ Forall (fun p => exists id v,
                 In v AuditService.defaultPolicies /\ p = policy_row id v) added
    /\ only_absent_added AuditService.defaultPolicies
         (dataRetentionPolicies w) (dataRetentionPolicies w').
Proof.
  unfold AuditService.initializeDefaultPolicies, try_catch.
  destruct (for_of_seed_appends AuditService.defaultPolicies w)
    as (r & w' & added & E & Hp & Hf).
  destruct (for_of_seed_step AuditService.defaultPolicies w) as (r' & w'' & E' & Hl & Ho).
  rewrite E in E'. inversion E'; subst r' w''. rewrite E.
  destruct r as [[]|e].
  - exists w', added. auto.
  - unfold console_error, modify. eexists _, added. split; [reflexivity|]. auto.
Qed.

Lemma filter_none {A} (f : A -> bool) (l : list A) :
  (forall x, In x l -> f x = false) -> List.filter f l = [].
Proof.
  induction l as [|x l IH]; intros H; [reflexivity|].
  simpl. rewrite (H x (or_introl eq_refl)). apply IH. intros y Hy. apply H. right. exact Hy.
Qed.

Lemma rows_of_zero c l p :
  rows_of c l = O -> In p l -> (Policy.dataType p =? c)%string = false.
Proof.
  unfold rows_of. induction l as [|q l IH]; intros Hz Hin; [destruct Hin|].
  simpl in Hz. destruct (Policy.dataType q =? c)%string eqn:Eq; [discriminate Hz|].
  destruct Hin as [<-|Hin]; [exact Eq|apply IH; assumption].
Qed.


(** X6. The existence check of the seeding ignores the active flag: a
    category whose only rows are inactive is not seeded again, so after the
    seeding it still has no active policy and the retention date of its
    entries falls back to seven years. *)
Theorem inactive_policy_blocks_seeding (w : World) (c : string) :
  rows_of c (dataRetentionPolicies w) <> O ->
  (forall p, In p (dataRetentionPolicies w) ->
             Policy.dataType p = c -> Policy.isActive p = false) ->
  List.filter (active_policy_for c)
    (dataRetentionPolicies (snd (AuditService.initializeDefaultPolicies w))) = [].
Proof.
  intros Hrows Hinactive.
  destruct (seeding_result w) as (w' & added & E & Hp & _ & _ & Ho).
  rewrite E. cbn [snd].
  assert (Hadded : rows_of c added = O).
  { specialize (Ho c). rewrite Hp, rows_of_app in Ho.
    destruct Ho as [Ho|(Hz & _)]; [lia|contradiction]. }
  rewrite Hp, List.filter_app.
  rewrite (filter_none _ (dataRetentionPolicies w)), (filter_none _ added); [reflexivity| |].
  - intros p Hin. unfold active_policy_for.
    rewrite (rows_of_zero c added p Hadded Hin). reflexivity.
  - intros p Hin. unfold active_policy_for.
    destruct (String.eqb_spec (Policy.dataType p) c) as [Heq|Hne]; [|reflexivity].
    rewrite (Hinactive p Hin Heq). reflexivity.
Qed.

(** The theorem applied to a store whose only policy for call logs is
    inactive. *)
Lemma inactive_policy_blocks_seeding_witness :
  List.filter (active_policy_for "call_logs")
    (dataRetentionPolicies (snd (AuditService.initializeDefaultPolicies retired_world))) = [].
Proof.
  apply inactive_policy_blocks_seeding.
  - vm_compute. intros H. discriminate H.
  - intros p [<-|[]] _. reflexivity.
Defined.

(** *** Further properties of the redaction *)

Lemma assign_prop_keys k v ps :
  truthy (lookup_prop k ps) = true ->
  map fst (assign_prop k v ps) = map fst ps.
Proof.
  induction ps as [|[k' v'] ps IH]; simpl; intros Ht; [discriminate Ht|].
  destruct (k' =? k)%string; simpl; [reflexivity|]. rewrite IH; [reflexivity|exact Ht].
Qed.

Lemma redact_props_step f ps ps1 :
  redact_props f ps = Ok ps1 ->
  map fst ps1 = map fst ps
  /\ (forall k, k <> f -> lookup_prop k ps1 = lookup_prop k ps)
  /\ (truthy (lookup_prop f ps) = false -> ps1 = ps)
  /\ (uses_replace f = false -> truthy (lookup_prop f ps) = true ->
      lookup_prop f ps1 = redacted_literal).
Proof.
  unfold redact_props, uses_replace.
  destruct (truthy (lookup_prop f ps)) eqn:Ht.
  2:{ intros H. inversion H; subst. repeat split; auto. intros _ Hf. discriminate Hf. }
  assert (Hassign : forall v, map fst (assign_prop f v ps) = map fst ps
            /\ (forall k, k <> f -> lookup_prop k (assign_prop f v ps) = lookup_prop k ps)
            /\ lookup_prop f (assign_prop f v ps) = v).
  { intros v. split; [apply assign_prop_keys, Ht|]. split.
    - intros k Hk. rewrite lookup_assign_prop.
      destruct (String.eqb_spec f k); [congruence|reflexivity].
    - rewrite lookup_assign_prop, String.eqb_refl. reflexivity. }
  destruct (f =? "phone")%string.
  { destruct (call_replace _ _ _) as [v'|e]; intros H; inversion H; subst.
    destruct (Hassign v') as (H1 & H2 & _). repeat split; auto.
    - intros Hf. discriminate Hf.
    - intros Hf. discriminate Hf. }
  destruct (f =? "email")%string.
  { destruct (call_replace _ _ _) as [v'|e]; intros H; inversion H; subst.
    destruct (Hassign v') as (H1 & H2 & _). repeat split; auto.
    - intros Hf. discriminate Hf.
    - intros Hf. discriminate Hf. }
  intros H. inversion H; subst.
  destruct (Hassign (VStr "***REDACTED***")) as (H1 & H2 & H3). repeat split; auto.
  intros Hf. discriminate Hf.
Qed.

Lemma redact_all_fields fs ps ps' :
  redact_all fs ps = Ok ps' ->
  map fst ps' = map fst ps
  /\ (forall k, ~ In k fs -> lookup_prop k ps' = lookup_prop k ps)
  /\ (forall k, truthy (lookup_prop k ps) = false -> lookup_prop k ps' = lookup_prop k ps)
  /\ (forall k, In k fs -> uses_replace k = false -> truthy (lookup_prop k ps) = true ->
        lookup_prop k ps' = redacted_literal).
Proof.
  revert ps. induction fs as [|f fs IH]; intros ps H; cbn [redact_all] in H.
  - inversion H; subst. repeat split; auto. intros k [].
  - destruct (redact_props f ps) as [ps1|e] eqn:E1; [|discriminate H].
    destruct (redact_props_step f ps ps1 E1) as (K1 & O1 & F1 & G1).
    destruct (IH ps1 H) as (K2 & O2 & F2 & G2).
    split; [congruence|]. split; [|split].
    + intros k Hk. rewrite O2 by (intros Hin; apply Hk; right; exact Hin).
      apply O1. intros ->. apply Hk. left. reflexivity.
    + intros k Hf.
      assert (E : lookup_prop k ps1 = lookup_prop k ps).
      { destruct (String.eqb_spec k f) as [->|Hne]; [rewrite (F1 Hf); reflexivity|].
        apply O1. exact Hne. }
      rewrite F2 by (rewrite E; exact Hf). exact E.
    + intros k Hin Hu Ht.
      assert (Hk1 : lookup_prop k ps1 = redacted_literal
                    \/ (k <> f /\ lookup_prop k ps1 = lookup_prop k ps)).
      { destruct (String.eqb_spec k f) as [->|Hne]; [left; apply G1; assumption|].
        right. split; [exact Hne|apply O1; exact Hne]. }
      destruct (in_dec string_dec k fs) as [Hin'|Hnin].
      * apply G2; [exact Hin'|exact Hu|].
        destruct Hk1 as [->|[_ ->]]; [reflexivity|exact Ht].
      * rewrite O2 by exact Hnin.
        destruct Hk1 as [Hr|[Hne _]]; [exact Hr|].
        destruct Hin as [<-|Hin]; [congruence|contradiction].
Qed.



(** *** The email rule *)

Lemma rep_dots_lazy fuel (local rest : list ascii) caps (k : Cont) r :
  no_line_terminator local ->
  (forall y s caps', In y local -> k (y :: s) caps' = None) ->
  k rest caps = Some r ->
  (List.length local < fuel)%nat ->
  rep_match (rmatch RDot) false fuel O None (local ++ rest) caps k = Some r.
Proof.
  intros Hl. revert fuel. induction Hl as [|x l Hx Hl IH]; intros fuel Hk Hr Hf.
  - destruct fuel as [|fuel]; [simpl in Hf; lia|].
    cbn [rep_match app max_is_zero]. rewrite Hr. reflexivity.
  - destruct fuel as [|fuel]; [simpl in Hf; lia|].
    cbn [List.length] in Hf. cbn [rep_match app max_is_zero max_pred].
    rewrite (Hk x (l ++ rest) caps (or_introl eq_refl)). cbn [or_else rmatch].
    rewrite Hx.
    replace (List.length (l ++ rest) <? List.length (x :: l ++ rest))%nat with true
      by (symmetry; apply Nat.ltb_lt; simpl; lia).
    apply IH; [|exact Hr|lia].
    intros y s caps' Hy. apply Hk. right. exact Hy.
Qed.

Lemma rep_dots_greedy fuel (dom : list ascii) caps (k : Cont) r :
  no_line_terminator dom ->
  k [] caps = Some r ->
  (List.length dom < fuel)%nat ->
  rep_match (rmatch RDot) true fuel O None dom caps k = Some r.
Proof.
  intros Hd. revert fuel. induction Hd as [|x l Hx Hl IH]; intros fuel Hr Hf.
  - destruct fuel as [|fuel]; [simpl in Hf; lia|].
    cbn [rep_match max_is_zero rmatch or_else]. exact Hr.
  - destruct fuel as [|fuel]; [simpl in Hf; lia|].
    cbn [List.length] in Hf. cbn [rep_match max_is_zero max_pred rmatch].
    rewrite Hx.
    replace (List.length l <? List.length (x :: l))%nat with true
      by (symmetry; apply Nat.ltb_lt; simpl; lia).
    rewrite IH; [reflexivity|exact Hr|lia].
Qed.

Lemma email_regex_match (c : ascii) (local dom : list ascii) :
  no_line_terminator (c :: local) ->
  no_line_terminator dom ->
  (forall y, In y local -> y <> "@"%char) ->
  exists caps,
    rmatch email_regex (c :: local ++ "@"%char :: dom) []
      (fun rest caps => Some (rest, caps)) = Some ([], caps)
    /\ get_cap 1 caps = [c]
    /\ get_cap 3 caps = "@"%char :: dom.
Proof.
  intros Hcl Hd Hat. inversion Hcl as [|? ? Hc Hl]; subst.
  eexists. split.
  - unfold email_regex. cbn [rmatch]. rewrite Hc. cbv beta.
    apply rep_dots_lazy.
    + exact Hl.
    + intros y s caps' Hy. cbv beta.
      rewrite (proj2 (Ascii.eqb_neq y "@")); [reflexivity|apply Hat, Hy].
    + cbv beta. change (Ascii.eqb "@" "@") with true. cbv iota.
      apply rep_dots_greedy.
      * exact Hd.
      * reflexivity.
      * simpl. lia.
    + rewrite length_app. simpl. lia.
  - split.
    + cbn [get_cap Nat.eqb].
      change (c :: local ++ "@"%char :: dom) with ([c] ++ (local ++ "@"%char :: dom)).
      apply take_consumed.
    + cbn [get_cap Nat.eqb]. cbn [List.length]. rewrite Nat.sub_0_r.
      apply take_ge. simpl. lia.
Qed.

(** X10. On a value made of a first character, a local part without an at
    sign, an at sign and a domain (no line breaks), the email rule keeps the
    first character and everything from the first at sign on and replaces
    the rest of the local part by the mask, however long that rest is (also
    when it is empty). *)
Theorem email_rule_masks_local_part (c : ascii) (local dom : list ascii) :
  no_line_terminator (c :: local) ->
  no_line_terminator dom ->
  (forall y, In y local -> y <> "@"%char) ->
  String_replace (string_of_list_ascii (c :: local ++ "@"%char :: dom))
    email_regex "$1***$3"
  = string_of_list_ascii (c :: list_ascii_of_string "***" ++ "@"%char :: dom).
Proof.
  intros Hcl Hd Hat.
  destruct (email_regex_match c local dom Hcl Hd Hat) as (caps & Hm & H1 & H3).
  unfold String_replace. rewrite list_ascii_of_string_of_list_ascii.
  cbn [regex_exec]. rewrite Hm. cbn [m_before m_matched m_caps m_after rev app].
  f_equal.
  change (list_ascii_of_string "$1***$3")
    with ["$"%char; "1"%char; "*"%char; "*"%char; "*"%char; "$"%char; "3"%char].
  change (group_count email_regex) with 3%nat.
  cbn [GetSubstitution].
  change (Ascii.eqb "$" "$") with true. change (Ascii.eqb "1" "$") with false.
  change (Ascii.eqb "1" "&") with false. change (Ascii.eqb "3" "$") with false.
  change (Ascii.eqb "3" "&") with false. change (Ascii.eqb "*" "$") with false.
  cbv iota.
  change (is_digit "1" && (1 <=? nat_of_ascii "1" - 48)%nat
          && (nat_of_ascii "1" - 48 <=? 3)%nat) with true.
  change (is_digit "3" && (1 <=? nat_of_ascii "3" - 48)%nat
          && (nat_of_ascii "3" - 48 <=? 3)%nat) with true.
  cbv iota.
  change (nat_of_ascii "1" - 48)%nat with 1%nat.
  change (nat_of_ascii "3" - 48)%nat with 3%nat.
  rewrite H1, H3. rewrite !app_nil_r. reflexivity.
Qed.

(** The theorem applied to the address of the specification. *)
Lemma email_rule_masks_local_part_witness :
  String_replace "jane@x.com" email_regex "$1***$3" = "j***@x.com".
Proof.
  apply (email_rule_masks_local_part "j"
           (list_ascii_of_string "ane") (list_ascii_of_string "x.com")).
  - repeat constructor.
  - repeat constructor.
  - intros y Hy Heq. subst y. simpl in Hy.
    repeat (destruct Hy as [Hy|Hy]; [discriminate Hy|]). exact Hy.
Defined.


(** *** Worked examples *)

Example phone_replace_ex :
  String_replace "+447700900123" phone_regex "$1$2***" = "+447700***".
Proof. vm_compute. reflexivity. Qed.

(** The pattern is not anchored: text around the match is kept. *)
Example phone_replace_embedded :
  String_replace "tel:+15551234567 ext 9" phone_regex "$1$2***" = "tel:+155512*** ext 9".
Proof. vm_compute. reflexivity. Qed.

(** Backtracking: with five digits the country code shrinks to one digit. *)
Example phone_replace_short :
  String_replace "+12345" phone_regex "$1$2***" = "+1234***".
Proof. vm_compute. reflexivity. Qed.

Example email_replace_ex :
  String_replace "jane@x.com" email_regex "$1***$3" = "j***@x.com".
Proof. vm_compute. reflexivity. Qed.

(** An email value without an at sign is left as it is, too. *)
Example email_replace_unmatched :
  String_replace "jane.x.com" email_regex "$1***$3" = "jane.x.com".
Proof. vm_compute. reflexivity. Qed.

Example stringify_nested :
  JSON_stringify
    [Plain [("deletedCount", VNum 3); ("skipped", VUndefined); ("list", VRef 1)];
     Arr [VNull; VUndefined; VBool true; VNum (-5)]]
    (VRef 0)
  = Ok (Some (String "{" (String dquote "deletedCount"
               ++ String dquote ":3,"
               ++ String dquote "list"
               ++ String dquote ":[null,null,true,-5]}")))%string.
Proof. vm_compute. reflexivity. Qed.

Example stringify_bigint : JSON_stringify [] (VBigInt 7) = Throw bigint_error.
Proof. reflexivity. Qed.

(** 29 February 2024, noon: seven years later is 1 March 2031, noon. *)
Example leap_day_plus_seven_years :
  Date_setFullYear utc_zone (DateValue 1709208000000)
    (num_add (Date_getFullYear utc_zone (DateValue 1709208000000)) (Some 7))
  = DateValue 1930132800000.
Proof. vm_compute. reflexivity. Qed.

(** With the storage working, the sweep of the example store removes the
    expired row and appends the row about itself, whose retention date is
    seven years ahead as no policy is stored. *)
Example sweep_records_itself :
  AuditService.cleanupExpiredLogs sweep_world
  = (Ok 1%nat,
     mkWorld [Plain [("deletedCount", VNum 1)]]
       [example_row 2 (Some (t2024 + msPerDay)); example_row 3 None;
        cleanup_row true (Some (deletedCount_json 1)) None
          (Some (t2024 + 2557 * msPerDay)) 4 t2024]
       [] 5 t2024 utc_zone [] ["Cleaned up 1 expired audit logs"]).
Proof. vm_compute. reflexivity. Qed.

(** A failed policy lookup does not block the write: the row is stored
    without retention date. *)
Example lookup_failure_stores_null_retention :
  auditLogs
    (snd (AuditService.logAction (booking_params VUndefined)
            (mkWorld [] [] [] 1 t2024 utc_zone [storage_down; storage_ok] [])))
  = [logged_row (booking_params VUndefined) None None 1 (t2024 + 10)].
Proof. vm_compute. reflexivity. Qed.

(** A rejected insert is swallowed as well. *)
Example insert_failure_is_swallowed :
  AuditService.logAction (booking_params VUndefined)
    (mkWorld [] [] [] 1 t2024 utc_zone [storage_ok; storage_down] [])
  = (Ok tt, mkWorld [] [] [] 1 (t2024 + 10) utc_zone [] [failed_label]).
Proof. vm_compute. reflexivity. Qed.
